(** * The simple debugger (sdb) of NEMU: command dispatch and watchpoint lifecycle

    A shallow embedding of [nemu/src/monitor/sdb/sdb.c].  The handlers and
    the main loop are translated function by function into a state-and-error
    monad over an explicit monitor state; the C library routines they rely
    on ([strtok], [sscanf] with [%d] and [%x], [strcmp]) are modelled as
    executable functions on strings; the collaborators that live outside the
    file (execution engine, register file, memory, evaluator) are the fields
    of a type class; every call to them and every [printf] is recorded, in
    program order, in a trace of events, and [printf_text] gives the text
    that a recorded [printf] writes. *)

From Stdlib Require Import ZArith Ascii String List Lia.
From Stdlib Require Import DecimalString HexadecimalString.
From stdpp Require Import base decidable list gmap strings.

Open Scope string_scope.
Open Scope list_scope.
Open Scope Z_scope.

(** ** Machine integers *)

(** [int] is 32 bits wide, two's complement; [vaddr_t] and [word_t] are the
    32-bit unsigned words that the formats [%x] and [%08x] of the source
    read and print. *)
Definition to_int (z : Z) : Z := (z + 2 ^ 31) mod 2 ^ 32 - 2 ^ 31.
Definition to_uint (z : Z) : Z := z mod 2 ^ 32.

(** ** C library: character classes, [strtok], [sscanf] *)

Module Libc.

Definition space : ascii := Ascii.ascii_of_nat 32.
Definition tab : ascii := Ascii.ascii_of_nat 9.

(** [isspace] in the C locale: space, and the controls 9 to 13. *)
Definition isspace (c : ascii) : bool :=
  let n := Ascii.nat_of_ascii c in
  Nat.eqb n 32 || (Nat.leb 9 n && Nat.leb n 13).

(** The only delimiter the source ever passes to [strtok] is [" "]. *)
Definition is_delim (c : ascii) : bool := Ascii.eqb c space.

Fixpoint skip_delim (s : string) : string :=
  match s with
  | String c s' => if is_delim c then skip_delim s' else s
  | EmptyString => s
  end.

(** The token that starts at the head of [s], and what follows the
    delimiter that ends it: [strtok] overwrites that delimiter with the
    terminator and keeps a pointer to the next character. *)
Fixpoint span_token (s : string) : string * string :=
  match s with
  | EmptyString => (EmptyString, EmptyString)
  | String c s' =>
      if is_delim c then (EmptyString, s')
      else let '(t, r) := span_token s' in (String c t, r)
  end.

(** [strtok] from position [s]: [None] is the null pointer it returns when
    only delimiters are left; otherwise the token and the saved position. *)
Definition strtok (s : string) : option (string * string) :=
  match skip_delim s with
  | EmptyString => None
  | s' => Some (span_token s')
  end.

Fixpoint skip_space (s : string) : string :=
  match s with
  | String c s' => if isspace c then skip_space s' else s
  | EmptyString => s
  end.

Definition digit_val (base : Z) (c : ascii) : option Z :=
  let n := Z.of_nat (Ascii.nat_of_ascii c) in
  let d :=
    if (48 <=? n) && (n <=? 57) then Some (n - 48)
    else if (97 <=? n) && (n <=? 102) then Some (n - 87)
    else if (65 <=? n) && (n <=? 70) then Some (n - 55)
    else None in
  match d with
  | Some v => if v <? base then Some v else None
  | None => None
  end.

(** Value of the longest prefix of digits, most significant first. *)
Fixpoint scan_digits (base acc : Z) (s : string) : Z :=
  match s with
  | String c s' =>
      match digit_val base c with
      | Some d => scan_digits base (acc * base + d) s'
      | None => acc
      end
  | EmptyString => acc
  end.

Definition starts_with_digit (base : Z) (s : string) : bool :=
  match s with
  | String c _ => match digit_val base c with Some _ => true | None => false end
  | EmptyString => false
  end.

(** An optional sign: [true] for a minus. *)
Definition scan_sign (s : string) : bool * string :=
  match s with
  | String c s' =>
      if Ascii.eqb c "-"%char then (true, s')
      else if Ascii.eqb c "+"%char then (false, s')
      else (false, s)
  | EmptyString => (false, s)
  end.

(** The prefix [0x] or [0X] is part of the number only when a hexadecimal
    digit follows it. *)
Definition strip_0x (s : string) : string :=
  match s with
  | String z (String x s') =>
      if Ascii.eqb z "0"%char
         && (Ascii.eqb x "x"%char || Ascii.eqb x "X"%char)
         && starts_with_digit 16 s'
      then s' else s
  | _ => s
  end.

(** The C library of the platform converts the digits as [strtol] and
    [strtoul] do, into a 64-bit [long]: a number out of that range is
    replaced by the nearest bound ([LONG_MIN], [LONG_MAX], [ULONG_MAX])
    before the result is narrowed to the 32 bits of the destination. *)
Definition LONG_MAX : Z := 2 ^ 63 - 1.
Definition LONG_MIN : Z := - 2 ^ 63.
Definition ULONG_MAX : Z := 2 ^ 64 - 1.

(** [sscanf(s, "%d", &n)]: white space is skipped, then an optionally
    signed decimal number is converted, up to the first character that is
    not a digit; [None] is the matching failure that leaves [n] untouched.
    The number is clamped to the range of [long] and the low 32 bits of
    that are stored in [n]: a number of twenty digits is stored as [-1],
    or as [0] after a minus sign. *)
Definition scan_d (s : string) : option Z :=
  let '(neg, s1) := scan_sign (skip_space s) in
  if starts_with_digit 10 s1
  then let v := scan_digits 10 0 s1 in
       Some (to_int (if neg then Z.max (- v) LONG_MIN else Z.min v LONG_MAX))
  else None.

(** [sscanf(s, "%x", &a)]: the same with base 16, an optional [0x], and an
    unsigned 32-bit destination.  The number is converted as an [unsigned
    long]: one above [ULONG_MAX] becomes [ULONG_MAX] whatever its sign, a
    minus sign otherwise negates it modulo [2^64]; the low 32 bits are
    stored. *)
Definition scan_x (s : string) : option Z :=
  let '(neg, s1) := scan_sign (skip_space s) in
  if starts_with_digit 16 s1
  then let v := scan_digits 16 0 (strip_0x s1) in
       Some (to_uint (if ULONG_MAX <? v then ULONG_MAX
                      else if neg then - v else v))
  else None.

(** Number of line terminators in a text. *)
Fixpoint count_newlines (s : string) : nat :=
  match s with
  | String c s' =>
      (if Nat.eqb (Ascii.nat_of_ascii c) 10 then 1 else 0)%nat + count_newlines s'
  | EmptyString => 0%nat
  end.

End Libc.

(** ** The watchpoint store *)

(** Modelled from the spec: the watchpoint record of [sdb.h] is not part of
    the sources at hand.  A watchpoint has a stable number, the text of its
    expression and the value the expression had when it was last evaluated;
    the handlers refer to a watchpoint by the index of its slot. *)
Record WP := mkWP { NO : nat; expr : string; value : Z }.

(** Modelled from the spec: the pool itself ([init_wp_pool], [new_wp],
    [free_wp] and [free_wp_by_num], which sdb.c only calls) is not part of
    the sources at hand.  It is a fixed-capacity arena of slots together
    with an explicit list of free slot indices and the set of the active
    ones. *)
Record Store := mkStore {
  slots : list WP;
  free_list : list nat;
  active : gset nat
}.

Module WatchpointStore.

Definition capacity (s : Store) : nat := length (slots s).

(** Pool occupancy: the number of active watchpoints. *)
Definition occupancy (s : Store) : nat := size (active s).

(** Modelled from the spec: [initWatchpointPool(capacity)] makes every
    slot free. *)
Definition init_wp_pool (cap : nat) : Store :=
  {| slots := (fun i => mkWP i EmptyString 0) <$> seq 0 cap;
     free_list := seq 0 cap;
     active := ∅ |}.

(** Modelled from the spec: allocation takes one slot from the free list
    and makes it active; it fails when the pool is exhausted. *)
Definition new_wp (s : Store) : option (nat * Store) :=
  match free_list s with
  | [] => None
  | i :: fl =>
      Some (i, {| slots := slots s; free_list := fl; active := {[ i ]} ∪ active s |})
  end.

(** Modelled from the spec: releasing an active slot moves it back to the
    free list; releasing anything else is a no-op. *)
Definition free_wp (i : nat) (s : Store) : Store :=
  if decide (i ∈ active s)
  then {| slots := slots s; free_list := i :: free_list s; active := active s ∖ {[ i ]} |}
  else s.

(** Modelled from the spec: release by number, the number being the [int]
    that the [d] command read; a number that names no active watchpoint
    (negative ones included) changes nothing. *)
Definition free_wp_by_num (n : Z) (s : Store) : Store :=
  if decide (0 ≤ n) then free_wp (Z.to_nat n) s else s.

(** [strcpy(wp->expr, arg)] and [wp->value = v] on slot [i]. *)
Definition set_expr (i : nat) (e : string) (s : Store) : Store :=
  {| slots := alter (fun w => mkWP (NO w) e (value w)) i (slots s);
     free_list := free_list s; active := active s |}.

Definition set_value (i : nat) (v : Z) (s : Store) : Store :=
  {| slots := alter (fun w => mkWP (NO w) (expr w) v) i (slots s);
     free_list := free_list s; active := active s |}.

(** The free list and the active set partition the slot indices. *)
Record consistent (s : Store) : Prop := {
  free_nodup : NoDup (free_list s);
  free_active_disjoint : ∀ i, i ∈ free_list s → i ∉ active s;
  free_active_cover : ∀ i, (i < capacity s)%nat ↔ i ∈ free_list s ∨ i ∈ active s
}.

(** One operation on the store, as a command sequence exercises it. *)
Inductive op :=
| Allocate
| Release (n : Z)
| ReleaseSlot (i : nat).

Definition run_op (o : op) (s : Store) : Store :=
  match o with
  | Allocate => match new_wp s with Some (_, s') => s' | None => s end
  | Release n => free_wp_by_num n s
  | ReleaseSlot i => free_wp i s
  end.

Definition run_ops (os : list op) (s : Store) : Store :=
  foldl (fun s o => run_op o s) s os.

End WatchpointStore.

Import WatchpointStore.

(** ** Collaborators, events and the monitor state *)

(** What sdb.c calls but does not define.  [cpu_exec n] runs the engine,
    [n] being the value of the argument expression as the handler writes it
    ([-1] in [cmd_c]); the engine acts on the machine, not on the pool nor
    on what sdb.c stores in [nemu_state].  [isa_reg_str2val s] is the
    evaluator that the [p] and [w] handlers call: it returns a word and the
    final content of the [success] flag, which the caller sets to [true]
    beforehand.  [vaddr_read addr len] reads memory and leaves the machine
    as it is.  [indeterminate k] is the content of the k-th automatic
    variable that the program reads before anything was stored in it: the
    address of each such variable is taken, so that its value is
    unspecified rather than the read undefined. *)
Class Collaborators := {
  Machine : Type;
  cpu_exec : Z → Machine → Machine;
  isa_reg_str2val : string → Machine → Z * bool;
  vaddr_read : Z → Z → Machine → Z;
  indeterminate : nat → Z
}.

(** Modelled from the spec: the run state of the simulator is an
    enumeration declared outside sdb.c; only [NEMU_QUIT] is named there. *)
Inductive nemu_state_t := NEMU_RUNNING | NEMU_QUIT.

(** What the main loop does with the outcome of one line. *)
Inductive StepResult := Continue | Terminate.

Inductive parg := PInt (z : Z) | PStr (s : string).

(** The observable actions, in the order the program performs them: a
    [printf] with its format and arguments, and the calls into the
    collaborators and into readline's history. *)
Inductive event :=
| Printf (fmt : string) (args : list parg)
| CpuExec (n : Z)
| IsaRegDisplay
| VaddrRead (addr len : Z)
| IsaRegStr2val (s : string)
| AddHistory (line : string).

Definition nl : string := String (Ascii.ascii_of_nat 10) EmptyString.

(** Text lines completed by a trace: the line terminators in the formats
    (no argument printed by sdb.c after a read line contains one). *)
Definition output_lines (t : list event) : nat :=
  foldr (fun e k => match e with
                    | Printf fmt _ => (Libc.count_newlines fmt + k)%nat
                    | _ => k
                    end) 0%nat t.

(** Addresses handed to [vaddr_read], in order. *)
Definition memory_reads (t : list event) : list (Z * Z) :=
  omap (fun e => match e with VaddrRead a l => Some (a, l) | _ => None end) t.

(** Texts handed to [printf], in order. *)
Definition printed (t : list event) : list (string * list parg) :=
  omap (fun e => match e with Printf f a => Some (f, a) | _ => None end) t.

(** *** The text that [printf] writes *)

(** A number in decimal, with a minus sign when it is negative, and a
    non-negative number in hexadecimal with lower-case digits. *)
Definition decimal (z : Z) : string :=
  DecimalString.NilZero.string_of_int (Z.to_int z).
Definition hexadecimal (z : Z) : string :=
  HexadecimalString.NilZero.string_of_uint (N.to_hex_uint (Z.to_N z)).

Fixpoint zeros (n : nat) : string :=
  match n with
  | O => EmptyString
  | S n' => String "0"%char (zeros n')
  end.

(** The flag [0] with a field width. *)
Definition zero_padded (width : nat) (t : string) : string :=
  zeros (width - String.length t)%nat +:+ t.

(** The conversions that the formats of sdb.c use: [%d], [%s], [%x], and
    [%x] with the flag [0] and a width of one digit ([%08x], [%02x]).  The
    argument of [%d] is the [int] that is printed, the argument of [%x] the
    [unsigned] that is printed.  Any other character is copied. *)
Fixpoint printf_text (fmt : string) (args : list parg) : string :=
  match fmt with
  | EmptyString => EmptyString
  | String c fmt1 =>
      if Ascii.eqb c "%"%char then
        match fmt1 with
        | EmptyString => EmptyString
        | String k fmt2 =>
            if Ascii.eqb k "d"%char then
              match args with
              | PInt z :: args' => decimal z +:+ printf_text fmt2 args'
              | _ => printf_text fmt2 (tail args)
              end
            else if Ascii.eqb k "x"%char then
              match args with
              | PInt z :: args' => hexadecimal z +:+ printf_text fmt2 args'
              | _ => printf_text fmt2 (tail args)
              end
            else if Ascii.eqb k "s"%char then
              match args with
              | PStr t :: args' => t +:+ printf_text fmt2 args'
              | _ => printf_text fmt2 (tail args)
              end
            else if Ascii.eqb k "0"%char then
              match fmt2 with
              | String w (String x fmt4) =>
                  if Ascii.eqb x "x"%char then
                    match args with
                    | PInt z :: args' =>
                        zero_padded (Ascii.nat_of_ascii w - 48)%nat (hexadecimal z)
                        +:+ printf_text fmt4 args'
                    | _ => printf_text fmt4 (tail args)
                    end
                  else String c (printf_text fmt1 args)
              | _ => String c (printf_text fmt1 args)
              end
            else String c (printf_text fmt1 args)
        end
      else String c (printf_text fmt1 args)
  end.

(** The text that a trace wrote to the terminal. *)
Definition output_text (t : list event) : string :=
  foldr (fun e k => match e with
                    | Printf fmt args => printf_text fmt args +:+ k
                    | _ => k
                    end) EmptyString t.

Section Monitor.

Context `{Collaborators}.

Record sdb := mkSdb {
  machine : Machine;
  nemu_state : nemu_state_t;
  is_batch_mode : bool;
  store : Store;
  strtok_save : string;      (* where strtok(NULL, ...) resumes *)
  uninit_reads : nat;        (* indeterminate values consumed so far *)
  trace : list event
}.

Definition with_machine (m : Machine) (s : sdb) : sdb :=
  mkSdb m (nemu_state s) (is_batch_mode s) (store s) (strtok_save s)
        (uninit_reads s) (trace s).
Definition with_nemu_state (n : nemu_state_t) (s : sdb) : sdb :=
  mkSdb (machine s) n (is_batch_mode s) (store s) (strtok_save s)
        (uninit_reads s) (trace s).
Definition with_batch_mode (b : bool) (s : sdb) : sdb :=
  mkSdb (machine s) (nemu_state s) b (store s) (strtok_save s)
        (uninit_reads s) (trace s).
Definition with_store (w : Store) (s : sdb) : sdb :=
  mkSdb (machine s) (nemu_state s) (is_batch_mode s) w (strtok_save s)
        (uninit_reads s) (trace s).
Definition with_strtok_save (p : string) (s : sdb) : sdb :=
  mkSdb (machine s) (nemu_state s) (is_batch_mode s) (store s) p
        (uninit_reads s) (trace s).
Definition with_uninit_reads (k : nat) (s : sdb) : sdb :=
  mkSdb (machine s) (nemu_state s) (is_batch_mode s) (store s) (strtok_save s)
        k (trace s).
Definition with_trace (t : list event) (s : sdb) : sdb :=
  mkSdb (machine s) (nemu_state s) (is_batch_mode s) (store s) (strtok_save s)
        (uninit_reads s) t.

(** *** The monad: state passing, with a crash for undefined behaviour *)

Inductive outcome (A : Type) :=
| Ok (a : A) (s : sdb)
| Crash (s : sdb).
Global Arguments Ok {A} a s.
Global Arguments Crash {A} s.

Definition M (A : Type) : Type := sdb → outcome A.

Global Instance M_ret : MRet M := fun A a s => Ok a s.
Global Instance M_bind : MBind M := fun A B f m s =>
  match m s with
  | Ok a s' => f a s'
  | Crash s' => Crash s'
  end.

(** The state an outcome ends in, crashed or not. *)
Definition final {A} (o : outcome A) : sdb :=
  match o with Ok _ s => s | Crash s => s end.

Definition crash {A} : M A := fun s => Crash s.

Definition emit (e : event) : M unit :=
  fun s => Ok tt (with_trace (trace s ++ [e]) s).

Definition printf (fmt : string) (args : list parg) : M unit :=
  emit (Printf fmt args).

(** [strtok(str, " ")] and [strtok(NULL, " ")]. *)
Definition strtok_from (str : string) : M (option string) :=
  fun s => match Libc.strtok str with
           | Some (tok, rest) => Ok (Some tok) (with_strtok_save rest s)
           | None => Ok None (with_strtok_save EmptyString s)
           end.

Definition strtok_next : M (option string) :=
  fun s => strtok_from (strtok_save s) s.

(** The characters after the token that [strtok] returned last. *)
Definition strtok_position : M string :=
  fun s => Ok (strtok_save s) s.

(** [strcmp(a, b) == 0]; a null first argument is undefined behaviour. *)
Definition strcmp_eq (a : option string) (b : string) : M bool :=
  match a with
  | Some a => mret (String.eqb a b)
  | None => crash
  end.

(** The value found in an [int], or in a [vaddr_t], declared without an
    initialiser. *)
Definition uninit_int : M Z :=
  fun s => Ok (to_int (indeterminate (uninit_reads s)))
              (with_uninit_reads (S (uninit_reads s)) s).
Definition uninit_vaddr : M Z :=
  fun s => Ok (to_uint (indeterminate (uninit_reads s)))
              (with_uninit_reads (S (uninit_reads s)) s).

(** The destination of [sscanf] after the call: the converted value, or
    what it held before when nothing matched. *)
Definition sscanf_d (arg : string) (n : Z) : Z :=
  match Libc.scan_d arg with Some v => v | None => n end.
Definition sscanf_x (arg : string) (a : Z) : Z :=
  match Libc.scan_x arg with Some v => v | None => a end.

(** Calls into the collaborators. *)
Definition call_cpu_exec (n : Z) : M unit :=
  fun s => Ok tt (with_machine (cpu_exec n (machine s))
                    (with_trace (trace s ++ [CpuExec n]) s)).

Definition call_isa_reg_display : M unit := emit IsaRegDisplay.

Definition call_vaddr_read (addr len : Z) : M Z :=
  fun s => Ok (vaddr_read addr len (machine s))
              (with_trace (trace s ++ [VaddrRead addr len]) s).

(** [isa_reg_str2val(e, &success)]: the [word_t] it returns, and the
    flag. *)
Definition call_isa_reg_str2val (e : string) : M (Z * bool) :=
  fun s => Ok (to_uint (isa_reg_str2val e (machine s)).1,
               (isa_reg_str2val e (machine s)).2)
              (with_trace (trace s ++ [IsaRegStr2val e]) s).

(** Calls into the watchpoint store.  A watchpoint pointer is the index
    of its slot, [None] being the null pointer. *)
Definition call_new_wp : M (option nat) :=
  fun s => match new_wp (store s) with
           | Some (i, w) => Ok (Some i) (with_store w s)
           | None => Ok None s
           end.

Definition call_free_wp (wp : option nat) : M unit :=
  match wp with
  | Some i => fun s => Ok tt (with_store (free_wp i (store s)) s)
  | None => crash
  end.

Definition call_free_wp_by_num (n : Z) : M unit :=
  fun s => Ok tt (with_store (free_wp_by_num n (store s)) s).

(** Stores through a watchpoint pointer; through the null pointer they
    are undefined behaviour.  The expression of a watchpoint is modelled
    from the spec as a text of any length: the size that [sdb.h] gives to
    the field, which [strcpy] does not check the token against, is not
    part of the model. *)
Definition wp_strcpy_expr (wp : option nat) (e : string) : M unit :=
  match wp with
  | Some i => fun s => Ok tt (with_store (set_expr i e (store s)) s)
  | None => crash
  end.

Definition wp_assign_value (wp : option nat) (v : Z) : M unit :=
  match wp with
  | Some i => fun s => Ok tt (with_store (set_value i v (store s)) s)
  | None => crash
  end.

End Monitor.

(** ** The command handlers *)

Section Handlers.

Context `{Collaborators}.

(** [cmd_c]: run with no instruction budget. *)
Definition cmd_c (args : option string) : M Z :=
  call_cpu_exec (-1);;
  mret 0.

(** [nemu_state.state = v]. *)
Definition set_nemu_state (v : nemu_state_t) : M unit :=
  fun s => Ok tt (with_nemu_state v s).

(** [cmd_q]. *)
Definition cmd_q (args : option string) : M Z :=
  set_nemu_state NEMU_QUIT;;
  mret (-1).

(** [cmd_si]. *)
Definition cmd_si (args : option string) : M Z :=
  arg ← strtok_next;
  let n := 1 in
  let n := match arg with
           | Some a => sscanf_d a n
           | None => n
           end in
  call_cpu_exec n;;
  mret 0.

(** [cmd_info]: both comparisons are made on whatever [strtok] returned. *)
Definition cmd_info (args : option string) : M Z :=
  arg ← strtok_next;
  is_w ← strcmp_eq arg "w";
  if is_w : bool then
    printf ("info r: print the information of registers" +:+ nl) [];;
    mret 0
  else
    is_r ← strcmp_eq arg "r";
    (if is_r : bool then call_isa_reg_display else mret tt);;
    mret 0.

(** The inner loop of [cmd_x]: [j] bytes from [addr] on; the result is the
    address after the last increment. *)
Fixpoint x_bytes (j : nat) (addr : Z) : M Z :=
  match j with
  | O => mret addr
  | S j' =>
      v ← call_vaddr_read addr 1;
      printf "0x%02x " [PInt v];;
      x_bytes j' (to_uint (addr + 1))
  end.

(** The outer loop of [cmd_x], [k] iterations left. *)
Fixpoint x_rows (k : nat) (addr : Z) : M unit :=
  match k with
  | O => mret tt
  | S k' =>
      printf "0x%08x: " [PInt addr];;
      addr' ← x_bytes 4 addr;
      printf nl [];;
      x_rows k' addr'
  end.

(** [cmd_x]: [i] runs from 0 while [i < n], that is [Z.to_nat n] times. *)
Definition cmd_x (args : option string) : M Z :=
  arg1 ← strtok_next;
  arg2 ← strtok_next;
  match arg1, arg2 with
  | Some a1, Some a2 =>
      n ← uninit_int;
      addr ← uninit_vaddr;
      let n := sscanf_d a1 n in
      let addr := sscanf_x a2 addr in
      x_rows (Z.to_nat n) addr;;
      mret 0
  | _, _ =>
      printf ("x N EXPR: scan memory" +:+ nl) [];;
      mret 0
  end.

(** [cmd_p]: [result] is a [word_t], handed to the conversion [%d], which
    prints the [int] of the same 32 bits. *)
Definition cmd_p (args : option string) : M Z :=
  arg ← strtok_next;
  match arg with
  | None =>
      printf ("p EXPR: print the value of expression" +:+ nl) [];;
      mret 0
  | Some a =>
      '(result, success) ← call_isa_reg_str2val a;
      (if success : bool then printf ("%d" +:+ nl) [PInt (to_int result)]
       else printf ("Invalid expression" +:+ nl) []);;
      mret 0
  end.

(** [cmd_w]: the pointer that [new_wp] returns is used unchecked. *)
Definition cmd_w (args : option string) : M Z :=
  arg ← strtok_next;
  match arg with
  | None =>
      printf ("w EXPR: set watchpoint" +:+ nl) [];;
      mret 0
  | Some a =>
      wp ← call_new_wp;
      wp_strcpy_expr wp a;;
      '(result, success) ← call_isa_reg_str2val a;
      wp_assign_value wp result;;
      (if negb success then
         printf ("Invalid expression" +:+ nl) [];;
         call_free_wp wp
       else mret tt);;
      mret 0
  end.

(** [cmd_d]. *)
Definition cmd_d (args : option string) : M Z :=
  arg ← strtok_next;
  match arg with
  | None =>
      printf ("d N: delete watchpoint" +:+ nl) [];;
      mret 0
  | Some a =>
      n ← uninit_int;
      let n := sscanf_d a n in
      call_free_wp_by_num n;;
      mret 0
  end.

(** Names and descriptions of [cmd_table], in table order. *)
Definition cmd_descriptions : list (string * string) :=
  [ ("help", "Display information about all supported commands");
    ("c", "Continue the execution of the program");
    ("q", "Exit NEMU");
    ("si", "step N commands");
    ("info", "print the information of registers");
    ("x", "scan memory");
    ("p", "print the value of expression");
    ("w", "set watchpoint");
    ("d", "delete watchpoint") ].

Definition print_description (d : string * string) : M unit :=
  printf ("%s - %s" +:+ nl) [PStr d.1; PStr d.2].

Fixpoint help_all (tbl : list (string * string)) : M unit :=
  match tbl with
  | [] => mret tt
  | d :: tbl' => print_description d;; help_all tbl'
  end.

Fixpoint help_one (arg : string) (tbl : list (string * string)) : M unit :=
  match tbl with
  | [] => printf ("Unknown command '%s'" +:+ nl) [PStr arg]
  | d :: tbl' =>
      if String.eqb arg d.1 then print_description d else help_one arg tbl'
  end.

(** [cmd_help] as lines 178 to 199 define it, after the table, whose
    names and descriptions it prints.  The name is defined a first time
    before the table: that definition is [cmd_help_fixed] below. *)
Definition cmd_help (args : option string) : M Z :=
  arg ← strtok_next;
  match arg with
  | None => help_all cmd_descriptions
  | Some a => help_one a cmd_descriptions
  end;;
  mret 0.

(** [cmd_help] as lines 56 to 67 define it, before the table: nine fixed
    lines.  This is the definition in scope where the table is
    initialised, hence the one that the name in the table denotes. *)
Definition cmd_help_fixed (args : option string) : M Z :=
  printf ("help: Display information about all supported commands" +:+ nl) [];;
  printf ("c: Continue the execution of the program" +:+ nl) [];;
  printf ("q: Exit NEMU" +:+ nl) [];;
  printf ("si: step N commands" +:+ nl) [];;
  printf ("info: print the information of registers" +:+ nl) [];;
  printf ("x: scan memory" +:+ nl) [];;
  printf ("p: print the value of expression" +:+ nl) [];;
  printf ("w: set watchpoint" +:+ nl) [];;
  printf ("d: delete watchpoint" +:+ nl) [];;
  mret 0.

Record cmd_entry := mkCmd {
  name : string;
  description : string;
  handler : option string → M Z
}.

Definition cmd_table : list cmd_entry :=
  [ mkCmd "help" "Display information about all supported commands" cmd_help_fixed;
    mkCmd "c" "Continue the execution of the program" cmd_c;
    mkCmd "q" "Exit NEMU" cmd_q;
    mkCmd "si" "step N commands" cmd_si;
    mkCmd "info" "print the information of registers" cmd_info;
    mkCmd "x" "scan memory" cmd_x;
    mkCmd "p" "print the value of expression" cmd_p;
    mkCmd "w" "set watchpoint" cmd_w;
    mkCmd "d" "delete watchpoint" cmd_d ].

(** ** The main loop *)

(** [sdb_set_batch_mode]. *)
Definition sdb_set_batch_mode : M unit :=
  fun s => Ok tt (with_batch_mode true s).

(** [rl_gets] on a line that readline returned: it enters the history
    unless it is empty.  The prompt is written by readline itself and is
    not part of the trace. *)
Definition rl_gets (line : string) : M string :=
  match line with
  | EmptyString => mret line
  | _ => emit (AddHistory line);; mret line
  end.

(** The search of the table in the body of the loop: the first entry of
    that exact name runs, and a negative result makes [sdb_mainloop]
    return; with no entry left ([i == NR_CMD]) the command is unknown. *)
Fixpoint run_command (cmd : string) (args : option string)
         (tbl : list cmd_entry) : M StepResult :=
  match tbl with
  | [] =>
      printf ("Unknown command '%s'" +:+ nl) [PStr cmd];;
      mret Continue
  | e :: tbl' =>
      if String.eqb cmd (name e) then
        rc ← handler e args;
        if rc <? 0 then mret Terminate else mret Continue
      else run_command cmd args tbl'
  end.

(** [args = cmd + strlen(cmd) + 1], made null when it is not below
    [str_end]: what follows the delimiter that ended the command, if there
    is any character there. *)
Definition remaining_args (rest : string) : option string :=
  match rest with
  | EmptyString => None
  | _ => Some rest
  end.

(** The body of the [for] loop of [sdb_mainloop], for the line [str]
    (without [CONFIG_DEVICE], whose only effect is a call that empties the
    event queue of the display before the table is searched). *)
Definition dispatch (str : string) : M StepResult :=
  cmd ← strtok_from str;
  match cmd with
  | None => mret Continue
  | Some cmd =>
      rest ← strtok_position;
      run_command cmd (remaining_args rest) cmd_table
  end.

(** The [for] loop of [sdb_mainloop] over the lines that readline will
    return, end of input after the last; the result is the list of the
    lines that were never read. *)
Fixpoint mainloop (lines : list string) : M (list string) :=
  match lines with
  | [] => mret []
  | line :: rest =>
      str ← rl_gets line;
      r ← dispatch str;
      match r with
      | Terminate => mret rest
      | Continue => mainloop rest
      end
  end.

(** [sdb_mainloop]. *)
Definition sdb_mainloop (lines : list string) : M (list string) :=
  fun s =>
    if is_batch_mode s then (cmd_c None;; mret lines) s
    else mainloop lines s.

(** [init_sdb]: the pool starts with every slot free. *)
Definition init_sdb (cap : nat) (m : Machine) : sdb :=
  mkSdb m NEMU_RUNNING false (init_wp_pool cap) EmptyString 0 [].

End Handlers.

(** ** Vocabulary of the properties *)

Section Vocabulary.

Context `{Collaborators}.

(** A computation that leaves the store partitioned, whether it returns or
    crashes. *)
Definition keeps_store_consistent {A} (m : M A) : Prop :=
  ∀ s, consistent (store s) → consistent (store (final (m s))).

(** A handler that, when it returns, returns 0. *)
Definition returns_zero (m : M Z) : Prop :=
  ∀ s, match m s with Ok rc _ => rc = 0 | Crash _ => True end.

(** A computation that returns, on every state. *)
Definition never_crashes {A} (m : M A) : Prop :=
  ∀ s, ∃ a s', m s = Ok a s'.

(** The events of one row of the memory dump that starts at [a0], row [i],
    on machine [m]: the label, four reads of one byte each with the byte
    printed after its read, and the end of the line. *)
Definition x_byte_events (m : Machine) (a : Z) : list event :=
  [VaddrRead a 1; Printf "0x%02x " [PInt (vaddr_read a 1 m)]].

Definition x_row_events (m : Machine) (a0 : Z) (i : nat) : list event :=
  let a := a0 + 4 * Z.of_nat i in
  Printf "0x%08x: " [PInt (to_uint a)]
  :: flat_map (fun j => x_byte_events m (to_uint (a + Z.of_nat j))) (seq 0 4)
  ++ [Printf nl []].

(** What [n] and [addr] hold in [cmd_x] after the two calls of [sscanf],
    [k] indeterminate values having been consumed before: the number read
    from the argument, or else what the variable happened to contain. *)
Definition x_count (k : nat) (arg1 : string) : Z :=
  sscanf_d arg1 (to_int (indeterminate k)).
Definition x_start (k : nat) (arg2 : string) : Z :=
  sscanf_x arg2 (to_uint (indeterminate (S k))).

(** The count that [si] steps by, for what follows the command on the
    line: the number at the head of the first token, 1 without one. *)
Definition si_count (rest : string) : Z :=
  match Libc.strtok rest with
  | Some (a, _) => default 1 (Libc.scan_d a)
  | None => 1
  end.

End Vocabulary.

(** The store after [cmd_w] has written the expression and its value into
    slot [i]. *)
Definition filled (i : nat) (e : string) (v : Z) (w : Store) : Store :=
  set_value i v (set_expr i e w).

(** A line made of space characters only (the empty line included). *)
Fixpoint only_spaces (s : string) : bool :=
  match s with
  | EmptyString => true
  | String c s' => Ascii.eqb c Libc.space && only_spaces s'
  end.

(** Following the spec's words, for comparison with [Libc.strtok]: the first
    token of a text when tokens are delimited by white space in the sense
    of [isspace] (tabs included), and not by the space character alone. *)
Fixpoint span_whitespace_token (s : string) : string :=
  match s with
  | EmptyString => EmptyString
  | String c s' =>
      if Libc.isspace c then EmptyString else String c (span_whitespace_token s')
  end.

Definition first_whitespace_token (s : string) : option string :=
  match Libc.skip_space s with
  | EmptyString => None
  | s' => Some (span_whitespace_token s')
  end.

(** A line made of white space only, in the sense of [isspace]. *)
Fixpoint only_whitespace (s : string) : bool :=
  match s with
  | EmptyString => true
  | String c s' => Libc.isspace c && only_whitespace s'
  end.

(** A small concrete machine, for running the monitor on examples: the
    machine is its program counter, an instruction is four bytes long, the
    evaluator knows the name [$pc] only, and the byte at an address is the
    low byte of that address. *)
Definition demo : Collaborators :=
  {| Machine := Z;
     cpu_exec := fun n pc => pc + 4 * n;
     isa_reg_str2val := fun e pc =>
       if String.eqb e "$pc" then (pc, true) else (0, false);
     vaddr_read := fun addr _ _ => Z.land addr 255;
     indeterminate := fun k => 7 + Z.of_nat k |}.

Definition demo_sdb : @sdb demo := @init_sdb demo 4%nat 2147483648.

(** ** Vocabulary of the properties of the whole command set *)

(** The command of a line: the token the table is searched for. *)
Definition command_of (line : string) : option string :=
  fst <$> Libc.strtok line.

(** [n] space characters. *)
Fixpoint spaces (n : nat) : string :=
  match n with
  | O => EmptyString
  | S n' => String Libc.space (spaces n')
  end.

Definition nonempty (l : string) : bool :=
  match l with
  | EmptyString => false
  | String _ _ => true
  end.

(** The lines that a trace handed to [add_history], in order. *)
Definition history (t : list event) : list string :=
  omap (fun e => match e with AddHistory l => Some l | _ => None end) t.

Definition is_history (e : event) : bool :=
  match e with AddHistory _ => true | _ => false end.

(** The events that the handler of a command may produce: any command may
    print; the engine is for [c] and [si], the register dump for [info],
    memory for [x], the evaluator for [p] and [w]; the history is for no
    handler. *)
Definition may_emit (cmd : string) (e : event) : bool :=
  match e with
  | Printf _ _ => true
  | CpuExec _ => String.eqb cmd "c" || String.eqb cmd "si"
  | IsaRegDisplay => String.eqb cmd "info"
  | VaddrRead _ _ => String.eqb cmd "x"
  | IsaRegStr2val _ => String.eqb cmd "p" || String.eqb cmd "w"
  | AddHistory _ => false
  end.

(** A [printf] that prints no argument: a fixed text. *)
Definition fixed_text (e : event) : bool :=
  match e with
  | Printf _ (_ :: _) => false
  | _ => true
  end.

(** The line that the [cmd_help] of lines 178 to 199 prints for a table
    entry. *)
Definition help_line (nm descr : string) : event :=
  Printf ("%s - %s" +:+ nl) [PStr nm; PStr descr].

(** The line that stands for a table entry in the [cmd_help] of lines 56
    to 67: a fixed text, with a colon. *)
Definition fixed_help_line (nm descr : string) : event :=
  Printf (nm +:+ ": " +:+ descr +:+ nl) [].

Section Footprints.

Context `{Collaborators}.

(** A computation that only appends to the trace, and only events that
    satisfy [Q], whether it returns or crashes. *)
Definition appends (Q : event → Prop) {A} (m : M A) : Prop :=
  ∀ s, ∃ out, trace (final (m s)) = trace s ++ out ∧ Forall Q out.

(** A computation that leaves the component [p] of the state as it is. *)
Definition preserves {B} (p : sdb → B) {A} (m : M A) : Prop :=
  ∀ s, p (final (m s)) = p s.

(** A component of the state that does not depend on the trace, on the
    position of [strtok] nor on the count of indeterminate values. *)
Definition bookkeeping_free {B} (p : sdb → B) : Prop :=
  (∀ t s, p (with_trace t s) = p s)
  ∧ (∀ r s, p (with_strtok_save r s) = p s)
  ∧ (∀ k s, p (with_uninit_reads k s) = p s).

(** Components that do not depend on the machine, on the run state, on
    the pool. *)
Definition machine_free {B} (p : sdb → B) : Prop :=
  ∀ m s, p (with_machine m s) = p s.
Definition nemu_state_free {B} (p : sdb → B) : Prop :=
  ∀ v s, p (with_nemu_state v s) = p s.
Definition store_free {B} (p : sdb → B) : Prop :=
  ∀ w s, p (with_store w s) = p s.

(** The usage line of the handlers that print one when their argument is
    missing, as the source spells it. *)
Definition usage_lines : list (string * string) :=
  [ ("p", "p EXPR: print the value of expression");
    ("w", "w EXPR: set watchpoint");
    ("d", "d N: delete watchpoint") ].

End Footprints.

(** * Properties *)

(** ** The C library model on examples *)

Example strtok_ex1 : Libc.strtok "  x 2 0x1000" = Some ("x", "2 0x1000").
Proof. reflexivity. Qed.
Example strtok_ex2 : Libc.strtok "   " = None.
Proof. reflexivity. Qed.
Example scan_d_ex1 : Libc.scan_d "-12ab" = Some (-12).
Proof. reflexivity. Qed.
Example scan_d_ex2 : Libc.scan_d "ab" = None.
Proof. reflexivity. Qed.
Example scan_x_ex1 : Libc.scan_x "0x1000" = Some 4096.
Proof. reflexivity. Qed.
Example scan_x_ex2 : Libc.scan_x "ff" = Some 255.
Proof. reflexivity. Qed.

(** Numbers that do not fit: beyond [int] the low 32 bits are kept, beyond
    [long] the bound is. *)
Example scan_d_ex3 : Libc.scan_d "4294967297" = Some 1.
Proof. reflexivity. Qed.
Example scan_d_ex4 : Libc.scan_d "99999999999999999999" = Some (-1).
Proof. reflexivity. Qed.
Example scan_d_ex5 : Libc.scan_d "-99999999999999999999" = Some 0.
Proof. reflexivity. Qed.
Example scan_x_ex3 : Libc.scan_x "100000000f" = Some 15.
Proof. reflexivity. Qed.
Example scan_x_ex4 : Libc.scan_x "ffffffffffffffffffff0" = Some 4294967295.
Proof. reflexivity. Qed.
Example scan_x_ex5 : Libc.scan_x "-1" = Some 4294967295.
Proof. reflexivity. Qed.

(** ** The watchpoint store keeps its partition *)

Section StoreFacts.

Implicit Types (w : Store) (i : nat).

Lemma consistent_init cap : consistent (init_wp_pool cap).
Proof.
  split; simpl.
  - apply NoDup_seq.
  - intros i _. set_solver.
  - intros i. unfold capacity. simpl. rewrite length_fmap, length_seq.
    rewrite elem_of_seq. split; [intros; left; lia | intros [?|?]; [lia | set_solver]].
Qed.

Lemma new_wp_Some w i w' :
  new_wp w = Some (i, w') →
  ∃ fl, free_list w = i :: fl
        ∧ w' = mkStore (slots w) fl ({[ i ]} ∪ active w).
Proof.
  unfold new_wp. destruct (free_list w) as [|j fl]; [discriminate|].
  intros [= <- <-]. eauto.
Qed.

Lemma new_wp_fresh w i w' :
  consistent w → new_wp w = Some (i, w') → i ∉ active w.
Proof.
  intros Hc (fl & Hfl & _)%new_wp_Some.
  apply (free_active_disjoint _ Hc). rewrite Hfl. left.
Qed.

Lemma new_wp_consistent w i w' :
  consistent w → new_wp w = Some (i, w') → consistent w'.
Proof.
  intros Hc (fl & Hfl & ->)%new_wp_Some.
  destruct Hc as [Hnd Hdis Hcov]. rewrite Hfl in *.
  apply NoDup_cons in Hnd as [Hi Hnd].
  split; simpl; [done | |].
  - intros j Hj. rewrite elem_of_union, elem_of_singleton.
    intros [-> | Hact]; [done|].
    by apply (Hdis j); [right|].
  - intros j. unfold capacity in *. simpl. rewrite Hcov.
    rewrite elem_of_cons, elem_of_union, elem_of_singleton. tauto.
Qed.

Lemma new_wp_occupancy w i w' :
  consistent w → new_wp w = Some (i, w') →
  occupancy w' = S (occupancy w).
Proof.
  intros Hc Hn. pose proof (new_wp_fresh _ _ _ Hc Hn) as Hi.
  apply new_wp_Some in Hn as (fl & _ & ->).
  unfold occupancy. simpl.
  rewrite size_union by set_solver. by rewrite size_singleton.
Qed.

Lemma free_wp_inactive w i : i ∉ active w → free_wp i w = w.
Proof. intros Hi. unfold free_wp. by rewrite decide_False. Qed.

Lemma free_wp_consistent w i : consistent w → consistent (free_wp i w).
Proof.
  intros Hc. unfold free_wp. destruct (decide (i ∈ active w)) as [Hi|]; [|done].
  destruct Hc as [Hnd Hdis Hcov].
  split; simpl.
  - apply NoDup_cons. split; [|done]. intros Hf. by apply (Hdis i).
  - intros j. rewrite elem_of_cons, elem_of_difference, elem_of_singleton.
    intros [-> | Hj] [Hact Hne]; [done|]. by apply (Hdis j).
  - intros j. unfold capacity in *. simpl. rewrite Hcov.
    rewrite elem_of_cons, elem_of_difference, elem_of_singleton.
    destruct (decide (j = i)) as [->|]; tauto.
Qed.

Lemma free_wp_not_active w i : i ∉ active (free_wp i w).
Proof.
  unfold free_wp. destruct (decide (i ∈ active w)); [simpl; set_solver | done].
Qed.

Lemma free_wp_occupancy w i :
  i ∈ active w → S (occupancy (free_wp i w)) = occupancy w.
Proof.
  intros Hi. unfold free_wp, occupancy. rewrite decide_True by done. simpl.
  rewrite size_difference by set_solver. rewrite size_singleton.
  assert (size (active w) ≠ 0%nat) by (intros ?%size_empty_inv; set_solver).
  lia.
Qed.

(** Releasing the slot that was just allocated gives back the partition
    there was before the allocation. *)
Lemma free_wp_new_wp w i w' :
  consistent w → new_wp w = Some (i, w') →
  free_list (free_wp i w') = free_list w ∧ active (free_wp i w') = active w.
Proof.
  intros Hc Hn. pose proof (new_wp_fresh _ _ _ Hc Hn) as Hi.
  apply new_wp_Some in Hn as (fl & Hfl & ->).
  unfold free_wp. simpl. rewrite decide_True by set_solver. simpl.
  split; [done | set_solver].
Qed.

Lemma free_wp_by_num_consistent w n :
  consistent w → consistent (free_wp_by_num n w).
Proof.
  intros Hc. unfold free_wp_by_num. case_decide; [by apply free_wp_consistent | done].
Qed.

(** A number that names no active watchpoint changes nothing. *)
Lemma free_wp_by_num_unknown w n :
  ¬ (0 ≤ n ∧ Z.to_nat n ∈ active w) → free_wp_by_num n w = w.
Proof.
  intros Hn. unfold free_wp_by_num. case_decide; [|done].
  apply free_wp_inactive. tauto.
Qed.

Lemma free_wp_by_num_nat w i : free_wp_by_num (Z.of_nat i) w = free_wp i w.
Proof.
  unfold free_wp_by_num. rewrite decide_True by lia. by rewrite Nat2Z.id.
Qed.

Lemma set_expr_consistent w i e : consistent w → consistent (set_expr i e w).
Proof.
  intros [Hnd Hdis Hcov]. split; simpl; [done..|].
  intros j. unfold capacity in *. simpl. by rewrite length_alter.
Qed.

Lemma set_value_consistent w i v : consistent w → consistent (set_value i v w).
Proof.
  intros [Hnd Hdis Hcov]. split; simpl; [done..|].
  intros j. unfold capacity in *. simpl. by rewrite length_alter.
Qed.

Lemma run_op_consistent o w : consistent w → consistent (run_op o w).
Proof.
  intros Hc. destruct o as [|n|i]; simpl.
  - destruct (new_wp w) as [[i w']|] eqn:Hn; [by eapply new_wp_consistent | done].
  - by apply free_wp_by_num_consistent.
  - by apply free_wp_consistent.
Qed.

Lemma run_ops_consistent os w : consistent w → consistent (run_ops os w).
Proof.
  unfold run_ops. revert w.
  induction os as [|o os IH]; intros w Hc; simpl; [done|].
  apply IH. by apply run_op_consistent.
Qed.

End StoreFacts.

(** ** The dispatcher *)

Ltac unfold_monad :=
  unfold mbind, M_bind, mret, M_ret, crash, printf, emit, strtok_next,
    strtok_from, strtok_position, set_nemu_state, strcmp_eq, uninit_int, uninit_vaddr, call_cpu_exec,
    call_isa_reg_display, call_vaddr_read, call_isa_reg_str2val,
    call_new_wp, call_free_wp, call_free_wp_by_num, wp_strcpy_expr,
    wp_assign_value in *.

Section DispatchFacts.

Context `{Collaborators}.

Implicit Types (s : sdb) (line rest : string).

Lemma bind_unfold {A B} (m : M A) (f : A → M B) s :
  (m ≫= f) s = match m s with Ok a s' => f a s' | Crash s' => Crash s' end.
Proof. reflexivity. Qed.

(** A line with a first token: the table is searched for that token, with
    [strtok] left right after it. *)
Lemma dispatch_token line cmd rest s :
  Libc.strtok line = Some (cmd, rest) →
  dispatch line s
  = run_command cmd (remaining_args rest) cmd_table (with_strtok_save rest s).
Proof.
  intros Ht. unfold dispatch. rewrite bind_unfold.
  unfold strtok_from. rewrite Ht. reflexivity.
Qed.

(** A line without a token: the loop goes on to the next line at once. *)
Lemma dispatch_no_token line s :
  Libc.strtok line = None →
  dispatch line s = Ok Continue (with_strtok_save EmptyString s).
Proof.
  intros Ht. unfold dispatch. rewrite bind_unfold.
  unfold strtok_from. rewrite Ht. reflexivity.
Qed.

Lemma strtok_None_skip line :
  Libc.strtok line = None ↔ Libc.skip_delim line = EmptyString.
Proof.
  unfold Libc.strtok. destruct (Libc.skip_delim line); split; congruence.
Qed.

Lemma skip_delim_only_spaces line :
  Libc.skip_delim line = EmptyString ↔ only_spaces line = true.
Proof.
  induction line as [|c l IH]; simpl; [done|].
  unfold Libc.is_delim. destruct (Ascii.eqb c Libc.space); simpl; [done|].
  split; discriminate.
Qed.

(** What [strtok] returns is never the empty string. *)
Lemma span_token_nonempty c l tok rest :
  Libc.is_delim c = false → Libc.span_token (String c l) = (tok, rest) → tok ≠ EmptyString.
Proof.
  simpl. intros ->. destruct (Libc.span_token l). intros [= <- <-]. discriminate.
Qed.

Lemma skip_delim_head line c l :
  Libc.skip_delim line = String c l → Libc.is_delim c = false.
Proof.
  induction line as [|d l' IH]; simpl; [discriminate|].
  destruct (Libc.is_delim d) eqn:Hd; [done|]. by intros [= <- <-].
Qed.

Lemma strtok_nonempty line tok rest :
  Libc.strtok line = Some (tok, rest) → tok ≠ EmptyString.
Proof.
  unfold Libc.strtok. destruct (Libc.skip_delim line) as [|c l] eqn:Hs; [discriminate|].
  intros [= Hsp]. eapply span_token_nonempty; [by eapply skip_delim_head | done].
Qed.

End DispatchFacts.

(** ** Blank lines *)

Section BlankLines.

Context `{Collaborators}.

(** C9, as amended: a line that consists of space characters only (the
    empty line included) makes the dispatcher return [Continue] with no
    handler run and nothing printed; the state is the one before the line,
    except for the position [strtok] remembers. *)
Theorem dispatch_only_spaces (line : string) (s : sdb) :
  only_spaces line = true →
  dispatch line s = Ok Continue (with_strtok_save EmptyString s)
  ∧ trace (with_strtok_save EmptyString s) = trace s.
Proof.
  intros Hsp. split; [|reflexivity].
  apply dispatch_no_token, strtok_None_skip, skip_delim_only_spaces, Hsp.
Qed.

End BlankLines.

(** C9, the claim as stated fails: a line that holds one tab is white space
    only, and the dispatcher reports it as an unknown command. *)
Lemma tab_line_reported_unknown :
  let line := String Libc.tab EmptyString in
  only_whitespace line = true
  ∧ @dispatch demo line demo_sdb
    = Ok Continue
        (with_trace [Printf ("Unknown command '%s'" +:+ nl) [PStr line]]
           (with_strtok_save EmptyString demo_sdb))
  ∧ ¬ (∀ (C : Collaborators) (l : string) (s : @sdb C),
          only_whitespace l = true →
          ∃ s', dispatch l s = Ok Continue s' ∧ trace s' = trace s).
Proof.
  assert (Hrun : @dispatch demo (String Libc.tab EmptyString) demo_sdb
                 = Ok Continue
                     (with_trace
                        [Printf ("Unknown command '%s'" +:+ nl)
                           [PStr (String Libc.tab EmptyString)]]
                        (with_strtok_save EmptyString demo_sdb)))
    by (vm_compute; reflexivity).
  split; [reflexivity|]. split; [exact Hrun|].
  intros Hall.
  destruct (Hall demo (String Libc.tab EmptyString) demo_sdb eq_refl)
    as (s' & Hd & Ht).
  rewrite Hrun in Hd. injection Hd as <-. discriminate Ht.
Qed.

Lemma dispatch_only_spaces_witness :
  @dispatch demo "   " demo_sdb
  = Ok Continue (with_strtok_save EmptyString demo_sdb).
Proof.
  apply (@dispatch_only_spaces demo "   " demo_sdb). vm_compute. reflexivity.
Defined.

(** ** Stepping *)

Section Stepping.

Context `{Collaborators}.

Lemma cmd_si_run (args : option string) (s : sdb) :
  ∃ p, cmd_si args s
       = Ok 0 (with_machine (cpu_exec (si_count (strtok_save s)) (machine s))
                 (with_trace (trace s ++ [CpuExec (si_count (strtok_save s))])
                    (with_strtok_save p s))).
Proof.
  unfold cmd_si, si_count. unfold_monad. unfold sscanf_d.
  destruct (Libc.strtok (strtok_save s)) as [[a r]|]; simpl.
  - exists r. destruct (Libc.scan_d a); reflexivity.
  - exists EmptyString. reflexivity.
Qed.

Lemma to_int_range z : - 2 ^ 31 ≤ to_int z < 2 ^ 31.
Proof.
  unfold to_int. pose proof (Z.mod_pos_bound (z + 2 ^ 31) (2 ^ 32)). lia.
Qed.

Lemma scan_d_range a n : Libc.scan_d a = Some n → - 2 ^ 31 ≤ n < 2 ^ 31.
Proof.
  unfold Libc.scan_d. destruct (Libc.scan_sign (Libc.skip_space a)) as [neg s1].
  destruct (Libc.starts_with_digit 10 s1); [|discriminate].
  intros [= <-]. apply to_int_range.
Qed.

(** C8, as amended: a dispatched [si] calls the execution engine once, with
    the count [N], an [int]: [N] is what [sscanf] with [%d] stores for the
    first space-delimited token after the command, and 1 when there is no
    such token or no number can be read from it; it changes nothing else,
    and [si] alone does what [si 1] does. *)
Theorem si_requests_count :
  (∀ (line rest : string) (s : sdb),
     Libc.strtok line = Some ("si", rest) →
     ∃ s', dispatch line s = Ok Continue s'
           ∧ trace s' = trace s ++ [CpuExec (si_count rest)]
           ∧ machine s' = cpu_exec (si_count rest) (machine s)
           ∧ store s' = store s ∧ nemu_state s' = nemu_state s)
  ∧ (∀ rest, Libc.strtok rest = None → si_count rest = 1)
  ∧ (∀ rest a r, Libc.strtok rest = Some (a, r) → Libc.scan_d a = None →
               si_count rest = 1)
  ∧ (∀ rest a r n, Libc.strtok rest = Some (a, r) → Libc.scan_d a = Some n →
                 si_count rest = n)
  ∧ (∀ s : sdb, dispatch "si" s = dispatch "si 1" s)
  ∧ (∀ rest, - 2 ^ 31 ≤ si_count rest < 2 ^ 31).
Proof.
  split; [|split; [|split; [|split; [|split]]]].
  - intros line rest s Ht.
    rewrite (dispatch_token _ _ _ _ Ht).
    change (run_command "si" (remaining_args rest) cmd_table (with_strtok_save rest s))
      with ((rc ← cmd_si (remaining_args rest);
             if rc <? 0 then mret Terminate else mret Continue)
              (with_strtok_save rest s)).
    rewrite bind_unfold.
    destruct (cmd_si_run (remaining_args rest) (with_strtok_save rest s)) as [p ->].
    simpl. eexists. split; [reflexivity|]. simpl. done.
  - intros rest Hr. unfold si_count. by rewrite Hr.
  - intros rest a r Hr Ha. unfold si_count. by rewrite Hr, Ha.
  - intros rest a r n Hr Ha. unfold si_count. by rewrite Hr, Ha.
  - intros s. reflexivity.
  - intros rest. unfold si_count.
    destruct (Libc.strtok rest) as [[a r]|]; [|lia].
    destruct (Libc.scan_d a) as [n|] eqn:Ha; simpl; [|lia].
    by apply scan_d_range in Ha.
Qed.

End Stepping.

(** C8, the claim as stated fails: in [si <tab> 5] the first token delimited
    by white space is [5], but [strtok] splits at spaces only and hands the
    tab to [sscanf], which reads no number from it: one instruction is
    requested, not five. *)
Lemma si_tab_token_steps_once :
  let rest := String Libc.tab " 5" in
  first_whitespace_token rest = Some "5"
  ∧ Libc.scan_d "5" = Some 5
  ∧ (∃ s' : @sdb demo,
       @dispatch demo ("si " +:+ rest) demo_sdb = Ok Continue s'
       ∧ trace s' = [CpuExec 1])
  ∧ ¬ (∀ (C : Collaborators) (line rest : string) (s : @sdb C),
          Libc.strtok line = Some ("si", rest) →
          ∃ s', dispatch line s = Ok Continue s'
                ∧ trace s'
                  = trace s
                    ++ [CpuExec match first_whitespace_token rest with
                                | Some a => default 1 (Libc.scan_d a)
                                | None => 1
                                end]).
Proof.
  assert (Hrun : @dispatch demo ("si " +:+ String Libc.tab " 5") demo_sdb
                 = Ok Continue
                     (with_machine (2147483652 : @Machine demo)
                        (with_trace [CpuExec 1] (with_strtok_save "5" demo_sdb))))
    by (vm_compute; reflexivity).
  split; [reflexivity|]. split; [reflexivity|].
  split; [eexists; split; [exact Hrun | reflexivity]|].
  intros Hall.
  destruct (Hall demo ("si " +:+ String Libc.tab " 5") (String Libc.tab " 5")
              demo_sdb eq_refl) as (s' & Hd & Ht).
  rewrite Hrun in Hd. injection Hd as <-. discriminate Ht.
Qed.

Lemma si_requests_count_witness :
  (∃ s', @dispatch demo "si 3" demo_sdb = Ok Continue s'
         ∧ trace s' = [CpuExec 3])
  ∧ (∃ s', @dispatch demo "si 99999999999999999999" demo_sdb = Ok Continue s'
           ∧ trace s' = [CpuExec (-1)])
  ∧ @si_count EmptyString = 1 ∧ @si_count "abc" = 1 ∧ @si_count "12abc de" = 12.
Proof.
  destruct (@si_requests_count demo) as (Hrun & Hnone & Hbad & Hnum & _).
  split; [|split].
  - destruct (Hrun "si 3" "3" demo_sdb eq_refl) as (s' & Hd & Ht & _).
    exists s'. split; [exact Hd | exact Ht].
  - destruct (Hrun "si 99999999999999999999" "99999999999999999999" demo_sdb eq_refl)
      as (s' & Hd & Ht & _).
    exists s'. split; [exact Hd|]. rewrite Ht.
    by rewrite (Hnum "99999999999999999999" "99999999999999999999" EmptyString (-1)).
  - split; [apply Hnone; reflexivity|].
    split; [apply (Hbad "abc" "abc" EmptyString); reflexivity|].
    apply (Hnum "12abc de" "12abc" "de"); reflexivity.
Defined.

(** ** Quitting *)

Section Quitting.

Context `{Collaborators}.

Lemma returns_zero_ret : returns_zero (mret 0).
Proof. intros s. reflexivity. Qed.

Lemma returns_zero_bind {A} (m : M A) (f : A → M Z) :
  (∀ a, returns_zero (f a)) → returns_zero (m ≫= f).
Proof.
  intros Hf s. rewrite bind_unfold. destruct (m s) as [a s'|s']; [apply Hf | done].
Qed.

Ltac returns_zero_step :=
  first
    [ apply returns_zero_ret
    | apply returns_zero_bind; intros
    | match goal with
      | |- returns_zero (match ?x with _ => _ end) => destruct x
      | |- returns_zero (if ?b then _ else _) => destruct b
      end ].

Lemma cmd_help_returns_zero args : returns_zero (cmd_help args).
Proof. unfold cmd_help. repeat returns_zero_step. Qed.

Lemma cmd_help_fixed_returns_zero args : returns_zero (cmd_help_fixed args).
Proof. unfold cmd_help_fixed. repeat returns_zero_step. Qed.

Lemma cmd_c_returns_zero args : returns_zero (cmd_c args).
Proof. unfold cmd_c. repeat returns_zero_step. Qed.

Lemma cmd_si_returns_zero args : returns_zero (cmd_si args).
Proof. unfold cmd_si. repeat returns_zero_step. Qed.

Lemma cmd_info_returns_zero args : returns_zero (cmd_info args).
Proof. unfold cmd_info. repeat returns_zero_step. Qed.

Lemma cmd_x_returns_zero args : returns_zero (cmd_x args).
Proof. unfold cmd_x. repeat returns_zero_step. Qed.

Lemma cmd_p_returns_zero args : returns_zero (cmd_p args).
Proof. unfold cmd_p. repeat returns_zero_step. Qed.

Lemma cmd_w_returns_zero args : returns_zero (cmd_w args).
Proof. unfold cmd_w. repeat returns_zero_step. Qed.

Lemma cmd_d_returns_zero args : returns_zero (cmd_d args).
Proof. unfold cmd_d. repeat returns_zero_step. Qed.

Lemma table_returns_zero (e : cmd_entry) (args : option string) :
  e ∈ cmd_table → name e ≠ "q" → returns_zero (handler e args).
Proof.
  unfold cmd_table. intros He Hq.
  repeat (apply elem_of_cons in He as [-> | He]); simpl in *;
    auto using cmd_help_fixed_returns_zero, cmd_c_returns_zero, cmd_si_returns_zero,
      cmd_info_returns_zero, cmd_x_returns_zero, cmd_p_returns_zero,
      cmd_w_returns_zero, cmd_d_returns_zero.
  - done.
  - by apply elem_of_nil in He.
Qed.

Lemma run_command_Terminate cmd args (tbl : list cmd_entry) (s s' : sdb) :
  (∀ e, e ∈ tbl → name e ≠ "q" → returns_zero (handler e args)) →
  run_command cmd args tbl s = Ok Terminate s' → cmd = "q".
Proof.
  induction tbl as [|e tbl IH]; intros Hz; simpl.
  - rewrite bind_unfold. unfold_monad. discriminate.
  - destruct (String.eqb cmd (name e)) eqn:Heq.
    + apply String.eqb_eq in Heq as ->.
      destruct (decide (name e = "q")) as [|Hne]; [done|].
      rewrite bind_unfold. specialize (Hz e ltac:(left) Hne s).
      destruct (handler e args s) as [rc s1|s1]; [|discriminate].
      subst rc. simpl. unfold_monad. discriminate.
    + apply IH. intros e' He'. apply Hz. by right.
Qed.

Lemma rl_gets_token line tok rest (s : sdb) :
  Libc.strtok line = Some (tok, rest) →
  rl_gets line s = Ok line (with_trace (trace s ++ [AddHistory line]) s).
Proof.
  destruct line; [discriminate|]. reflexivity.
Qed.

Lemma dispatch_q_run line rest (s : sdb) :
  Libc.strtok line = Some ("q", rest) →
  dispatch line s
  = Ok Terminate (with_nemu_state NEMU_QUIT (with_strtok_save rest s)).
Proof. intros Ht. rewrite (dispatch_token _ _ _ _ Ht). reflexivity. Qed.

Lemma Terminate_only_from_q line (s s' : sdb) :
  dispatch line s = Ok Terminate s' →
  ∃ rest, Libc.strtok line = Some ("q", rest).
Proof.
  intros Hd. destruct (Libc.strtok line) as [[cmd rest]|] eqn:Ht.
  - rewrite (dispatch_token _ _ _ _ Ht) in Hd.
    apply run_command_Terminate in Hd as ->; [by exists rest|].
    intros e. apply table_returns_zero.
  - rewrite (dispatch_no_token _ _ Ht) in Hd. discriminate.
Qed.

Lemma rl_gets_final line (s : sdb) :
  rl_gets line s = Ok line (final (rl_gets line s)).
Proof. destruct line; reflexivity. Qed.

(** The loop stops at the first line that yields [Terminate], wherever it
    stands in the input. *)
Lemma mainloop_stops_at (pre : list string) line (post : list string)
      (s s1 s2 : sdb) :
  (∀ l, l ∈ pre → command_of l ≠ Some "q") →
  mainloop pre s = Ok [] s1 →
  dispatch line (final (rl_gets line s1)) = Ok Terminate s2 →
  mainloop (pre ++ line :: post) s = Ok post s2.
Proof.
  revert s. induction pre as [|l0 pre IH]; intros s Hq Hpre Hd.
  - injection Hpre as <-. cbn [app mainloop].
    rewrite bind_unfold, rl_gets_final, bind_unfold, Hd. reflexivity.
  - cbn [app mainloop] in *. rewrite bind_unfold, rl_gets_final in *.
    rewrite bind_unfold in *.
    destruct (dispatch l0 (final (rl_gets l0 s))) as [[|] s0|s0] eqn:Hd0.
    + apply IH; [|done..]. intros l Hl. apply Hq. by right.
    + apply Terminate_only_from_q in Hd0 as [rest Ht].
      destruct (Hq l0); [by left|]. unfold command_of. by rewrite Ht.
    + discriminate.
Qed.

(** Lines are left unread only behind a [q]. *)
Lemma mainloop_stopped_by_q (lines post : list string) (s s' : sdb) :
  mainloop lines s = Ok post s' → post ≠ [] →
  ∃ (pre : list string) (line : string),
    lines = pre ++ line :: post
    ∧ command_of line = Some "q"
    ∧ (∀ l, l ∈ pre → command_of l ≠ Some "q")
    ∧ nemu_state s' = NEMU_QUIT.
Proof.
  revert s. induction lines as [|l0 lines IH]; intros s Hrun Hpost.
  - injection Hrun as <- _. done.
  - cbn [mainloop] in Hrun. rewrite bind_unfold, rl_gets_final in Hrun.
    rewrite bind_unfold in Hrun.
    destruct (dispatch l0 (final (rl_gets l0 s))) as [[|] s0|s0] eqn:Hd0.
    + destruct (IH _ Hrun Hpost) as (pre & line & -> & Hline & Hpre & Hst).
      exists (l0 :: pre), line. split; [done|]. split; [done|]. split; [|done].
      intros l [->|Hl]%elem_of_cons; [|by apply Hpre].
      unfold command_of. destruct (Libc.strtok l0) as [[c r]|] eqn:Ht; [|done].
      simpl. intros [= ->]. by rewrite (dispatch_q_run _ _ _ Ht) in Hd0.
    + injection Hrun as <- <-.
      destruct (Terminate_only_from_q _ _ _ Hd0) as [rest Ht].
      exists [], l0. split; [done|].
      split; [unfold command_of; by rewrite Ht|].
      split; [by intros l ?%elem_of_nil|].
      rewrite (dispatch_q_run _ _ _ Ht) in Hd0. by injection Hd0 as <-.
    + discriminate.
Qed.

(** C3: a dispatched [q] sets the run state to [NEMU_QUIT] and yields
    [Terminate]; every other handler of the table returns 0 whenever it
    returns, so that a line yields [Terminate] only if its command is [q];
    and on [Terminate] the main loop returns at once, wherever the line
    stands in the input: after any lines without [q] that were all
    handled, the final state is the one that the handler of [q] left (no
    event follows the entry of that line into the history), and all the
    lines after it are unread.  Conversely the loop leaves lines unread
    only behind the first [q], in the run state [NEMU_QUIT]. *)
Theorem quit_terminates_at_once :
  (∀ (line rest : string) (s : sdb),
     Libc.strtok line = Some ("q", rest) →
     dispatch line s
     = Ok Terminate (with_nemu_state NEMU_QUIT (with_strtok_save rest s)))
  ∧ (∀ (e : cmd_entry) (args : option string),
       e ∈ cmd_table → name e ≠ "q" → returns_zero (handler e args))
  ∧ (∀ (line : string) (s s' : sdb),
       dispatch line s = Ok Terminate s' →
       ∃ rest, Libc.strtok line = Some ("q", rest))
  ∧ (∀ (line : string) (lines : list string) (s s' : sdb),
       is_batch_mode s = false →
       dispatch line (final (rl_gets line s)) = Ok Terminate s' →
       sdb_mainloop (line :: lines) s = Ok lines s')
  ∧ (∀ (line rest : string) (lines : list string) (s : sdb),
       is_batch_mode s = false →
       Libc.strtok line = Some ("q", rest) →
       sdb_mainloop (line :: lines) s
       = Ok lines (with_nemu_state NEMU_QUIT
                     (with_strtok_save rest
                        (with_trace (trace s ++ [AddHistory line]) s))))
  ∧ (∀ (pre : list string) (line : string) (post : list string)
       (s s1 s2 : sdb),
       is_batch_mode s = false →
       (∀ l, l ∈ pre → command_of l ≠ Some "q") →
       sdb_mainloop pre s = Ok [] s1 →
       dispatch line (final (rl_gets line s1)) = Ok Terminate s2 →
       sdb_mainloop (pre ++ line :: post) s = Ok post s2)
  ∧ (∀ (pre : list string) (line rest : string) (post : list string)
       (s s1 : sdb),
       is_batch_mode s = false →
       (∀ l, l ∈ pre → command_of l ≠ Some "q") →
       sdb_mainloop pre s = Ok [] s1 →
       Libc.strtok line = Some ("q", rest) →
       sdb_mainloop (pre ++ line :: post) s
       = Ok post (with_nemu_state NEMU_QUIT
                    (with_strtok_save rest
                       (with_trace (trace s1 ++ [AddHistory line]) s1))))
  ∧ (∀ (lines post : list string) (s s' : sdb),
       is_batch_mode s = false →
       sdb_mainloop lines s = Ok post s' → post ≠ [] →
       ∃ (pre : list string) (line : string),
         lines = pre ++ line :: post
         ∧ command_of line = Some "q"
         ∧ (∀ l, l ∈ pre → command_of l ≠ Some "q")
         ∧ nemu_state s' = NEMU_QUIT).
Proof.
  assert (Hstop : ∀ (pre : list string) (line : string) (post : list string)
                    (s s1 s2 : sdb),
             is_batch_mode s = false →
             (∀ l, l ∈ pre → command_of l ≠ Some "q") →
             sdb_mainloop pre s = Ok [] s1 →
             dispatch line (final (rl_gets line s1)) = Ok Terminate s2 →
             sdb_mainloop (pre ++ line :: post) s = Ok post s2).
  { intros pre line post s s1 s2 Hb Hq Hpre Hd. unfold sdb_mainloop in *.
    rewrite Hb in *. by eapply mainloop_stops_at. }
  split; [apply dispatch_q_run|]. split; [apply table_returns_zero|].
  split; [apply Terminate_only_from_q|].
  split; [|split; [|split; [exact Hstop|split]]].
  - intros line lines s s' Hb Hd.
    apply (Hstop [] line lines s s s'); [done| |by unfold sdb_mainloop; rewrite Hb|done].
    by intros l ?%elem_of_nil.
  - intros line rest lines s Hb Ht.
    apply (Hstop [] line lines s s); [done| |by unfold sdb_mainloop; rewrite Hb|].
    { by intros l ?%elem_of_nil. }
    rewrite (rl_gets_token _ _ _ _ Ht). simpl. by apply dispatch_q_run.
  - intros pre line rest post s s1 Hb Hq Hpre Ht.
    apply (Hstop pre line post s s1); [done..|].
    rewrite (rl_gets_token _ _ _ _ Ht). simpl. by apply dispatch_q_run.
  - intros lines post s s' Hb. unfold sdb_mainloop. rewrite Hb.
    apply mainloop_stopped_by_q.
Qed.

End Quitting.

Lemma quit_terminates_at_once_witness :
  @sdb_mainloop demo [" q"; "c"; "x 1 0"] demo_sdb
  = Ok ["c"; "x 1 0"]
       (with_nemu_state NEMU_QUIT
          (with_strtok_save EmptyString
             (with_trace [AddHistory " q"] demo_sdb)))
  ∧ ∃ s' : @sdb demo,
      @sdb_mainloop demo ["c"; "  "; "q"; "si 3"; "q"] demo_sdb = Ok ["si 3"; "q"] s'
      ∧ trace s' = [AddHistory "c"; CpuExec (-1); AddHistory "  "; AddHistory "q"]
      ∧ machine s' = 2147483644
      ∧ nemu_state s' = NEMU_QUIT.
Proof.
  destruct (@quit_terminates_at_once demo) as (_ & _ & _ & _ & Hq & _ & Hpre & _).
  split.
  - apply (Hq " q" EmptyString ["c"; "x 1 0"] demo_sdb); reflexivity.
  - eexists. split.
    + apply (Hpre ["c"; "  "] "q" EmptyString ["si 3"; "q"] demo_sdb).
      * reflexivity.
      * intros l Hl. repeat (apply elem_of_cons in Hl as [->|Hl]); [done..|].
        by apply elem_of_nil in Hl.
      * reflexivity.
      * reflexivity.
    + split; [reflexivity|]. split; reflexivity.
Defined.

(** ** Scanning memory *)

Section Scanning.

Context `{Collaborators}.

Implicit Types (s : sdb) (m : Machine).

Lemma to_uint_add_l a b : to_uint (to_uint a + b) = to_uint (a + b).
Proof. unfold to_uint. apply Zplus_mod_idemp_l. Qed.

Lemma to_uint_idemp a : to_uint (to_uint a) = to_uint a.
Proof. unfold to_uint. apply Zmod_mod. Qed.

Lemma to_uint_small a : 0 ≤ a < 2 ^ 32 → to_uint a = a.
Proof. unfold to_uint. apply Z.mod_small. Qed.

Lemma to_uint_range a : 0 ≤ to_uint a < 2 ^ 32.
Proof. unfold to_uint. apply Z.mod_pos_bound. lia. Qed.

Lemma flat_map_seq_S {A} (f : nat → list A) n k :
  flat_map f (seq (S n) k) = flat_map (fun i => f (S i)) (seq n k).
Proof.
  revert n. induction k as [|k IH]; intros n; simpl; [done|]. by rewrite IH.
Qed.

Lemma x_bytes_run j a s :
  x_bytes j (to_uint a) s
  = Ok (to_uint (a + Z.of_nat j))
       (with_trace
          (trace s
           ++ flat_map (fun k => x_byte_events (machine s) (to_uint (a + Z.of_nat k)))
                (seq 0 j)) s).
Proof.
  revert a s. induction j as [|j IH]; intros a s.
  - simpl. unfold_monad. rewrite Z.add_0_r, app_nil_r. by destruct s.
  - cbn [x_bytes]. rewrite !bind_unfold. unfold_monad.
    rewrite to_uint_add_l, IH. f_equal.
    + apply (f_equal to_uint). lia.
    + cbn [seq flat_map]. rewrite flat_map_seq_S.
      unfold with_trace at 1. cbn.
      unfold with_trace. f_equal. rewrite <- !app_assoc. f_equal.
      change (Z.of_nat 0) with 0. rewrite Z.add_0_r. cbn [app]. do 2 f_equal.
      apply flat_map_ext. intros k.
      by replace (a + 1 + Z.of_nat k) with (a + Z.of_nat (S k)) by lia.
Qed.

Lemma x_row_events_shift m a i :
  x_row_events m (to_uint (a + 4)) i = x_row_events m a (S i).
Proof.
  unfold x_row_events. rewrite to_uint_add_l.
  replace (a + 4 + 4 * Z.of_nat i) with (a + 4 * Z.of_nat (S i)) by lia.
  f_equal. f_equal. apply flat_map_ext. intros j.
  rewrite <- Z.add_assoc, to_uint_add_l.
  by replace (a + 4 + (4 * Z.of_nat i + Z.of_nat j))
    with (a + 4 * Z.of_nat (S i) + Z.of_nat j) by lia.
Qed.

Lemma x_row_events_uint m a i :
  x_row_events m (to_uint a) i = x_row_events m a i.
Proof.
  unfold x_row_events. rewrite to_uint_add_l. do 2 f_equal.
  apply flat_map_ext. intros j.
  by rewrite <- Z.add_assoc, to_uint_add_l, Z.add_assoc.
Qed.

Lemma x_rows_run k a s :
  x_rows k (to_uint a) s
  = Ok tt (with_trace
             (trace s ++ flat_map (x_row_events (machine s) (to_uint a)) (seq 0 k)) s).
Proof.
  revert a s. induction k as [|k IH]; intros a s.
  - simpl. unfold_monad. rewrite app_nil_r. by destruct s.
  - cbn [x_rows]. rewrite !bind_unfold. unfold_monad.
    rewrite x_bytes_run. change (Z.of_nat 4) with 4. rewrite IH.
    f_equal. unfold with_trace.
    cbn [trace machine nemu_state is_batch_mode store strtok_save uninit_reads].
    f_equal. rewrite <- !app_assoc. f_equal.
    change (seq 0 (S k)) with (0%nat :: seq 1 k). cbn [flat_map].
    rewrite flat_map_seq_S, !app_assoc. f_equal.
    + rewrite x_row_events_uint. unfold x_row_events.
      change (Z.of_nat 0) with 0. rewrite Z.mul_0_r, Z.add_0_r.
      rewrite <- app_assoc. reflexivity.
    + apply flat_map_ext. intros i.
      by rewrite x_row_events_shift, x_row_events_uint.
Qed.

Lemma output_lines_app t1 t2 :
  output_lines (t1 ++ t2) = (output_lines t1 + output_lines t2)%nat.
Proof.
  unfold output_lines. induction t1 as [|e t1 IH]; simpl; [done|].
  destruct e; simpl; rewrite ?IH; lia.
Qed.

Lemma memory_reads_app t1 t2 :
  memory_reads (t1 ++ t2) = memory_reads t1 ++ memory_reads t2.
Proof. apply omap_app. Qed.

Lemma output_lines_x_row m a i : output_lines (x_row_events m a i) = 1%nat.
Proof. reflexivity. Qed.

Lemma output_lines_x_rows m a (l : list nat) :
  output_lines (flat_map (x_row_events m a) l) = length l.
Proof.
  induction l as [|i l IH]; cbn [flat_map length]; [done|].
  by rewrite output_lines_app, output_lines_x_row, IH.
Qed.

Lemma memory_reads_x_row m a i :
  memory_reads (x_row_events m a i)
  = (fun j => (to_uint (a + Z.of_nat j), 1)) <$> seq (4 * i) 4.
Proof.
  unfold x_row_events. cbn.
  set (b := (i + (i + (i + (i + 0))))%nat).
  replace (a + 4 * Z.of_nat i + Z.of_nat 0) with (a + Z.of_nat b) by lia.
  replace (a + 4 * Z.of_nat i + Z.of_nat 1) with (a + Z.of_nat (S b)) by lia.
  replace (a + 4 * Z.of_nat i + Z.of_nat 2) with (a + Z.of_nat (S (S b))) by lia.
  replace (a + 4 * Z.of_nat i + Z.of_nat 3) with (a + Z.of_nat (S (S (S b)))) by lia.
  reflexivity.
Qed.

Lemma memory_reads_x_rows_from m a n k :
  memory_reads (flat_map (x_row_events m a) (seq n k))
  = (fun j => (to_uint (a + Z.of_nat j), 1)) <$> seq (4 * n) (4 * k).
Proof.
  revert n. induction k as [|k IH]; intros n.
  - by rewrite Nat.mul_0_r.
  - cbn [seq flat_map]. rewrite memory_reads_app, memory_reads_x_row, IH.
    replace (4 * S k)%nat with (4 + 4 * k)%nat by lia.
    rewrite seq_app, fmap_app. do 3 f_equal. lia.
Qed.

(** The reads of a dump of [k] rows from [a]: [4 * k] single bytes, at
    addresses that go up by one from [a], modulo the word size. *)
Lemma memory_reads_x_rows m a k :
  memory_reads (flat_map (x_row_events m a) (seq 0 k))
  = (fun j => (to_uint (a + Z.of_nat j), 1)) <$> seq 0 (4 * k).
Proof. apply (memory_reads_x_rows_from m a 0 k). Qed.

Lemma x_start_uint k arg2 : to_uint (x_start k arg2) = x_start k arg2.
Proof.
  unfold x_start, sscanf_x, Libc.scan_x.
  destruct (Libc.scan_sign _) as [neg s1].
  destruct (Libc.starts_with_digit 16 s1); apply to_uint_idemp.
Qed.

Lemma x_start_parsed k arg2 a : Libc.scan_x arg2 = Some a → x_start k arg2 = a.
Proof. unfold x_start, sscanf_x. by intros ->. Qed.

Lemma x_count_parsed k arg1 n : Libc.scan_d arg1 = Some n → x_count k arg1 = n.
Proof. unfold x_count, sscanf_d. by intros ->. Qed.

(** [cmd_x] with both arguments on the line. *)
Lemma cmd_x_run args s a1 r1 a2 r2 :
  Libc.strtok (strtok_save s) = Some (a1, r1) →
  Libc.strtok r1 = Some (a2, r2) →
  cmd_x args s
  = Ok 0 (with_trace
            (trace s
             ++ flat_map (x_row_events (machine s) (x_start (uninit_reads s) a2))
                  (seq 0 (Z.to_nat (x_count (uninit_reads s) a1))))
            (with_uninit_reads (S (S (uninit_reads s))) (with_strtok_save r2 s))).
Proof.
  intros H1 H2. unfold cmd_x. rewrite !bind_unfold. unfold_monad.
  rewrite H1. cbn. rewrite H2. cbn.
  fold (x_count (uninit_reads s) a1). fold (x_start (uninit_reads s) a2).
  rewrite <- (x_start_uint (uninit_reads s) a2) at 1.
  rewrite x_rows_run, x_start_uint. reflexivity.
Qed.

(** [cmd_x] with an argument missing. *)
Lemma cmd_x_usage args s :
  (Libc.strtok (strtok_save s) = None
   ∨ ∃ a1 r1, Libc.strtok (strtok_save s) = Some (a1, r1) ∧ Libc.strtok r1 = None) →
  ∃ p, cmd_x args s
       = Ok 0 (with_trace (trace s ++ [Printf ("x N EXPR: scan memory" +:+ nl) []])
                 (with_strtok_save p s)).
Proof.
  intros [H1 | (a1 & r1 & H1 & H2)]; unfold cmd_x; rewrite !bind_unfold;
    unfold_monad; rewrite H1; cbn.
  - exists EmptyString. reflexivity.
  - rewrite H2. cbn. exists EmptyString. reflexivity.
Qed.

Lemma run_command_x args s :
  run_command "x" args cmd_table s
  = (rc ← cmd_x args; if rc <? 0 then mret Terminate else mret Continue) s.
Proof. reflexivity. Qed.

Lemma dispatch_x_run line rest a1 r1 a2 r2 s :
  Libc.strtok line = Some ("x", rest) →
  Libc.strtok rest = Some (a1, r1) →
  Libc.strtok r1 = Some (a2, r2) →
  dispatch line s
  = Ok Continue
       (with_trace
          (trace s
           ++ flat_map (x_row_events (machine s) (x_start (uninit_reads s) a2))
                (seq 0 (Z.to_nat (x_count (uninit_reads s) a1))))
          (with_uninit_reads (S (S (uninit_reads s))) (with_strtok_save r2 s))).
Proof.
  intros Ht H1 H2. rewrite (dispatch_token _ _ _ _ Ht), run_command_x, bind_unfold.
  rewrite (cmd_x_run _ _ a1 r1 a2 r2) by done. reflexivity.
Qed.

(** C7: a dispatched [x N ADDR] whose count reads as a positive [n] prints
    exactly [n] lines; line [i] is the label of the address [4 * i] bytes
    after the start, then four single-byte reads at consecutive addresses,
    each byte printed after its read; the start is [ADDR] when it reads as
    a hexadecimal number; addresses are 32-bit words.  With an argument
    missing, the usage line is the only output and memory is not read. *)
Theorem x_prints_rows :
  (∀ (line rest a1 r1 a2 r2 : string) (n : Z) (s : sdb),
     Libc.strtok line = Some ("x", rest) →
     Libc.strtok rest = Some (a1, r1) →
     Libc.strtok r1 = Some (a2, r2) →
     Libc.scan_d a1 = Some n →
     0 < n →
     ∃ (s' : sdb) (out : list event),
       dispatch line s = Ok Continue s'
       ∧ trace s' = trace s ++ out
       ∧ out = flat_map (x_row_events (machine s) (x_start (uninit_reads s) a2))
                 (seq 0 (Z.to_nat n))
       ∧ output_lines out = Z.to_nat n
       ∧ memory_reads out
         = (fun j => (to_uint (x_start (uninit_reads s) a2 + Z.of_nat j), 1))
             <$> seq 0 (4 * Z.to_nat n)
       ∧ (∀ a, Libc.scan_x a2 = Some a → x_start (uninit_reads s) a2 = a)
       ∧ machine s' = machine s ∧ store s' = store s)
  ∧ (∀ (line rest : string) (s : sdb),
       Libc.strtok line = Some ("x", rest) →
       (Libc.strtok rest = None
        ∨ ∃ a1 r1, Libc.strtok rest = Some (a1, r1) ∧ Libc.strtok r1 = None) →
       ∃ s' : sdb,
         dispatch line s = Ok Continue s'
         ∧ trace s' = trace s ++ [Printf ("x N EXPR: scan memory" +:+ nl) []]
         ∧ memory_reads [Printf ("x N EXPR: scan memory" +:+ nl) []] = []
         ∧ machine s' = machine s ∧ store s' = store s).
Proof.
  split.
  - intros line rest a1 r1 a2 r2 n s Ht H1 H2 Hn Hpos.
    pose proof (dispatch_x_run line rest a1 r1 a2 r2 s Ht H1 H2) as Hd.
    rewrite (x_count_parsed _ _ _ Hn) in Hd.
    eexists _, _. split; [exact Hd|].
    split; [reflexivity|]. split; [reflexivity|].
    split; [by rewrite output_lines_x_rows, length_seq|].
    split; [apply memory_reads_x_rows|].
    split; [intros a; apply x_start_parsed | done].
  - intros line rest s Ht Hmiss.
    rewrite (dispatch_token _ _ _ _ Ht), run_command_x, bind_unfold.
    destruct (cmd_x_usage (remaining_args rest) (with_strtok_save rest s) Hmiss)
      as [p ->].
    eexists. split; [reflexivity|]. done.
Qed.

(** C10: a dispatched [x N ADDR] whose count reads as zero or as a negative
    number prints nothing and reads no memory. *)
Theorem x_nonpositive_count_is_silent
    (line rest a1 r1 a2 r2 : string) (n : Z) (s : sdb) :
  Libc.strtok line = Some ("x", rest) →
  Libc.strtok rest = Some (a1, r1) →
  Libc.strtok r1 = Some (a2, r2) →
  Libc.scan_d a1 = Some n →
  n ≤ 0 →
  ∃ s' : sdb,
    dispatch line s = Ok Continue s'
    ∧ trace s' = trace s
    ∧ output_lines (trace s') = output_lines (trace s)
    ∧ memory_reads (trace s') = memory_reads (trace s)
    ∧ machine s' = machine s ∧ store s' = store s ∧ nemu_state s' = nemu_state s.
Proof.
  intros Ht H1 H2 Hn Hle.
  pose proof (dispatch_x_run line rest a1 r1 a2 r2 s Ht H1 H2) as Hd.
  rewrite (x_count_parsed _ _ _ Hn) in Hd.
  replace (Z.to_nat n) with 0%nat in Hd by lia.
  eexists. split; [exact Hd|]. cbn. by rewrite app_nil_r.
Qed.

End Scanning.

Lemma x_prints_rows_witness :
  ∃ s' : @sdb demo,
    @dispatch demo "x 2 0x1000" demo_sdb = Ok Continue s'
    ∧ trace s'
      = [Printf "0x%08x: " [PInt 4096];
         VaddrRead 4096 1; Printf "0x%02x " [PInt 0];
         VaddrRead 4097 1; Printf "0x%02x " [PInt 1];
         VaddrRead 4098 1; Printf "0x%02x " [PInt 2];
         VaddrRead 4099 1; Printf "0x%02x " [PInt 3];
         Printf nl [];
         Printf "0x%08x: " [PInt 4100];
         VaddrRead 4100 1; Printf "0x%02x " [PInt 4];
         VaddrRead 4101 1; Printf "0x%02x " [PInt 5];
         VaddrRead 4102 1; Printf "0x%02x " [PInt 6];
         VaddrRead 4103 1; Printf "0x%02x " [PInt 7];
         Printf nl []]
    ∧ output_lines (trace s') = 2%nat
    ∧ output_text (trace s')
      = "0x00001000: 0x00 0x01 0x02 0x03 " +:+ nl
        +:+ "0x00001004: 0x04 0x05 0x06 0x07 " +:+ nl
    ∧ (∃ s'' : @sdb demo,
         @dispatch demo "x 2" demo_sdb = Ok Continue s''
         ∧ trace s'' = [Printf ("x N EXPR: scan memory" +:+ nl) []])
    ∧ (∃ s3 : @sdb demo,
         @dispatch demo "x 1 ffffffffffffffffffff0" demo_sdb = Ok Continue s3
         ∧ memory_reads (trace s3)
           = [(4294967295, 1); (0, 1); (1, 1); (2, 1)]).
Proof.
  destruct (@x_prints_rows demo) as [Hrows Husage].
  destruct (Hrows "x 2 0x1000" "2 0x1000" "2" "0x1000" "0x1000" EmptyString 2 demo_sdb)
    as (s' & out & Hd & Ht & Hout & _); [reflexivity..| lia |].
  exists s'. split; [exact Hd|].
  rewrite Ht, Hout. split; [vm_compute; reflexivity|].
  split; [vm_compute; reflexivity|].
  split; [vm_compute; reflexivity|].
  split.
  - destruct (Husage "x 2" "2" demo_sdb) as (s'' & Hd' & Ht' & _);
      [reflexivity | right; exists "2", EmptyString; split; reflexivity |].
    exists s''. split; [exact Hd' | exact Ht'].
  - destruct (Hrows "x 1 ffffffffffffffffffff0" "1 ffffffffffffffffffff0" "1"
                "ffffffffffffffffffff0" "ffffffffffffffffffff0" EmptyString 1 demo_sdb)
      as (s3 & out3 & Hd3 & Ht3 & _ & _ & Hreads & Hstart & _);
      [reflexivity..| lia |].
    exists s3. split; [exact Hd3|].
    rewrite Ht3. cbn [trace demo_sdb init_sdb app]. rewrite Hreads.
    rewrite (Hstart 4294967295 eq_refl). vm_compute. reflexivity.
Defined.

Lemma x_nonpositive_count_is_silent_witness :
  ∃ s' : @sdb demo,
    @dispatch demo "x -3 0x1000" demo_sdb = Ok Continue s' ∧ trace s' = [].
Proof.
  destruct (@x_nonpositive_count_is_silent demo
              "x -3 0x1000" "-3 0x1000" "-3" "0x1000" "0x1000" EmptyString (-3) demo_sdb)
    as (s' & Hd & Ht & _); [reflexivity..| lia |].
  exists s'. split; [exact Hd | exact Ht].
Defined.

(** ** Inspecting registers and expressions *)

Section Inspecting.

Context `{Collaborators}.

Implicit Types (s : sdb).

Lemma run_command_info args s :
  run_command "info" args cmd_table s
  = (rc ← cmd_info args; if rc <? 0 then mret Terminate else mret Continue) s.
Proof. reflexivity. Qed.

Lemma run_command_p args s :
  run_command "p" args cmd_table s
  = (rc ← cmd_p args; if rc <? 0 then mret Terminate else mret Continue) s.
Proof. reflexivity. Qed.

(** [cmd_info] without a sub-argument: [strcmp] gets the null pointer. *)
Lemma cmd_info_null args s :
  Libc.strtok (strtok_save s) = None →
  cmd_info args s = Crash (with_strtok_save EmptyString s).
Proof.
  intros Hn. unfold cmd_info. rewrite !bind_unfold. unfold_monad.
  rewrite Hn. reflexivity.
Qed.

Lemma cmd_info_arg args s a r :
  Libc.strtok (strtok_save s) = Some (a, r) →
  cmd_info args s
  = Ok 0 (with_trace
            (trace s
             ++ (if String.eqb a "w"
                 then [Printf ("info r: print the information of registers" +:+ nl) []]
                 else if String.eqb a "r" then [IsaRegDisplay] else []))
            (with_strtok_save r s)).
Proof.
  intros Ha. unfold cmd_info. rewrite !bind_unfold. unfold_monad.
  rewrite Ha. cbn.
  destruct (String.eqb a "w"); [reflexivity|].
  destruct (String.eqb a "r"); cbn; [reflexivity|].
  by rewrite app_nil_r.
Qed.

(** C4, the defect: a dispatched [info] with no sub-argument hands the null
    pointer that [strtok] returned to [strcmp] and crashes, where the other
    handlers test their argument first; and a dispatched [x] whose count
    does not read as a number loops as many times as the uninitialised
    [n] happens to say. *)
Theorem info_without_argument_crashes :
  (∀ s : sdb, dispatch "info" s = Crash (with_strtok_save EmptyString s))
  ∧ (∀ s : sdb,
       ∃ s' : sdb,
         dispatch "x zz 0x10" s = Ok Continue s'
         ∧ trace s'
           = trace s
             ++ flat_map (x_row_events (machine s) 16)
                  (seq 0 (Z.to_nat (to_int (indeterminate (uninit_reads s)))))).
Proof.
  split.
  - intros s.
    rewrite (dispatch_token "info" "info" EmptyString s eq_refl).
    rewrite run_command_info, bind_unfold.
    by rewrite cmd_info_null.
  - intros s. eexists. split.
    + apply (dispatch_x_run "x zz 0x10" "zz 0x10" "zz" "0x10" "0x10" EmptyString s);
        reflexivity.
    + reflexivity.
Qed.

(** C5, as amended: a dispatched [info] with a sub-argument asks the
    register file for its dump when the sub-argument is [r], prints the
    usage line when it is [w], and does nothing at all for any other one;
    in no case is anything else inspected or changed. *)
Theorem info_subcommands (line rest a r : string) (s : sdb) :
  Libc.strtok line = Some ("info", rest) →
  Libc.strtok rest = Some (a, r) →
  ∃ s' : sdb,
    dispatch line s = Ok Continue s'
    ∧ (a = "r" → trace s' = trace s ++ [IsaRegDisplay])
    ∧ (a = "w" →
       trace s'
       = trace s ++ [Printf ("info r: print the information of registers" +:+ nl) []])
    ∧ (a ≠ "r" → a ≠ "w" → trace s' = trace s)
    ∧ machine s' = machine s ∧ store s' = store s ∧ nemu_state s' = nemu_state s.
Proof.
  intros Ht Ha.
  rewrite (dispatch_token _ _ _ _ Ht), run_command_info, bind_unfold.
  rewrite (cmd_info_arg _ _ a r) by done.
  eexists. split; [reflexivity|]. cbn.
  split; [by intros ->|]. split; [by intros ->|]. split; [|done].
  intros Hr Hw.
  apply String.eqb_neq in Hr, Hw. rewrite Hr, Hw. by rewrite app_nil_r.
Qed.

Lemma cmd_p_arg args s a r :
  Libc.strtok (strtok_save s) = Some (a, r) →
  cmd_p args s
  = Ok 0 (with_trace
            (trace s
             ++ [IsaRegStr2val a;
                 if (isa_reg_str2val a (machine s)).2
                 then Printf ("%d" +:+ nl)
                        [PInt (to_int (to_uint (isa_reg_str2val a (machine s)).1))]
                 else Printf ("Invalid expression" +:+ nl) []])
            (with_strtok_save r s)).
Proof.
  intros Ha. unfold cmd_p. rewrite !bind_unfold. unfold_monad.
  rewrite Ha. cbn.
  destruct (isa_reg_str2val a (machine s)) as [v [|]]; cbn;
    by rewrite <- app_assoc.
Qed.

Lemma append_String c (t u : string) : String c t +:+ u = String c (t +:+ u).
Proof. reflexivity. Qed.

Lemma append_empty_r (t : string) : t +:+ EmptyString = t.
Proof. induction t as [|c t IH]; [done | by rewrite append_String, IH]. Qed.

Lemma output_text_app (t1 t2 : list event) :
  output_text (t1 ++ t2) = output_text t1 +:+ output_text t2.
Proof.
  induction t1 as [|e t1 IH]; simpl; [done|].
  destruct e; try done. rewrite IH.
  generalize (printf_text fmt args). intros t.
  induction t as [|c t IHt]; [done | by rewrite !append_String, IHt].
Qed.

(** What [%d] prints for a word: the word itself below [2^31], and the
    negative number [word - 2^32] from there on. *)
Lemma to_int_of_word (w : Z) :
  0 ≤ w < 2 ^ 32 →
  (w < 2 ^ 31 → to_int w = w) ∧ (2 ^ 31 ≤ w → to_int w = w - 2 ^ 32).
Proof.
  intros Hw. unfold to_int. split; intros Hlt.
  - rewrite Z.mod_small; lia.
  - replace (w + 2 ^ 31) with (w - 2 ^ 31 + 1 * 2 ^ 32) by lia.
    rewrite Z_mod_plus_full, Z.mod_small; lia.
Qed.

(** C6, as amended: a dispatched [p] with a space-delimited token after it
    hands that token to [isa_reg_str2val], once, and calls nothing else;
    when the flag comes back set, the one line printed is the word that was
    returned, in decimal, read as a signed [int] (a word of [2^31] or more
    appears as the negative number [word - 2^32]); when the flag comes back
    clear, the one line printed is [Invalid expression]; nothing else
    happens in either case. *)
Theorem p_prints_value_or_invalid (line rest a r : string) (s : sdb) :
  Libc.strtok line = Some ("p", rest) →
  Libc.strtok rest = Some (a, r) →
  let word := to_uint (isa_reg_str2val a (machine s)).1 in
  ∃ ev : event,
    dispatch line s
    = Ok Continue
         (with_trace (trace s ++ [IsaRegStr2val a; ev]) (with_strtok_save r s))
    ∧ ((isa_reg_str2val a (machine s)).2 = true →
       ev = Printf ("%d" +:+ nl) [PInt (to_int word)]
       ∧ output_text [ev] = decimal (to_int word) +:+ nl
       ∧ (word < 2 ^ 31 → to_int word = word)
       ∧ (2 ^ 31 ≤ word → to_int word = word - 2 ^ 32))
    ∧ ((isa_reg_str2val a (machine s)).2 = false →
       ev = Printf ("Invalid expression" +:+ nl) []
       ∧ output_text [ev] = "Invalid expression" +:+ nl).
Proof.
  intros Ht Ha word.
  rewrite (dispatch_token _ _ _ _ Ht), run_command_p, bind_unfold.
  rewrite (cmd_p_arg _ _ a r) by done.
  change (machine (with_strtok_save rest s)) with (machine s).
  eexists. split; [reflexivity|].
  split; intros ->.
  - split; [reflexivity|]. split.
    + cbn. by rewrite append_empty_r.
    + apply to_int_of_word. unfold word, to_uint. apply Z.mod_pos_bound. lia.
  - split; reflexivity.
Qed.

End Inspecting.

(** C5, the claim as stated fails: [info foo] returns without printing
    anything, usage text included. *)
Lemma info_other_argument_prints_nothing :
  @dispatch demo "info foo" demo_sdb
  = Ok Continue (with_strtok_save EmptyString demo_sdb)
  ∧ printed (trace (with_strtok_save EmptyString demo_sdb)) = []
  ∧ ¬ (∀ (C : Collaborators) (line rest a r : string) (s : @sdb C),
          Libc.strtok line = Some ("info", rest) →
          Libc.strtok rest = Some (a, r) →
          a ≠ "r" →
          ∃ s', dispatch line s = Ok Continue s'
                ∧ printed (trace s') ≠ printed (trace s)).
Proof.
  assert (Hrun : @dispatch demo "info foo" demo_sdb
                 = Ok Continue (with_strtok_save EmptyString demo_sdb))
    by (vm_compute; reflexivity).
  split; [exact Hrun|]. split; [reflexivity|].
  intros Hall.
  destruct (Hall demo "info foo" "foo" "foo" EmptyString demo_sdb
              eq_refl eq_refl ltac:(discriminate)) as (s' & Hd & Hp).
  rewrite Hrun in Hd. injection Hd as <-. by apply Hp.
Qed.

Lemma info_subcommands_witness :
  (∃ s' : @sdb demo,
     @dispatch demo "info r" demo_sdb = Ok Continue s'
     ∧ trace s' = [IsaRegDisplay])
  ∧ (∃ s' : @sdb demo,
       @dispatch demo "info w" demo_sdb = Ok Continue s'
       ∧ trace s' = [Printf ("info r: print the information of registers" +:+ nl) []])
  ∧ (∃ s' : @sdb demo,
       @dispatch demo "info foo" demo_sdb = Ok Continue s' ∧ trace s' = []).
Proof.
  split; [|split].
  - destruct (@info_subcommands demo "info r" "r" "r" EmptyString demo_sdb)
      as (s' & Hd & Hr & _); [reflexivity..|].
    exists s'. split; [exact Hd | apply Hr; reflexivity].
  - destruct (@info_subcommands demo "info w" "w" "w" EmptyString demo_sdb)
      as (s' & Hd & _ & Hw & _); [reflexivity..|].
    exists s'. split; [exact Hd | apply Hw; reflexivity].
  - destruct (@info_subcommands demo "info foo" "foo" "foo" EmptyString demo_sdb)
      as (s' & Hd & _ & _ & Ho & _); [reflexivity..|].
    exists s'. split; [exact Hd | apply Ho; discriminate].
Defined.

(** C6, the claim as stated fails, twice.  In [p <tab> $pc] the first
    token delimited by white space is [$pc], which the evaluator accepts,
    but what [strtok] returns and the handler evaluates is the tab, which
    the evaluator rejects.  And in [p $pc], with the program counter at
    [2^31], the evaluation succeeds with the value 2147483648 but the line
    printed is [-2147483648]. *)
Lemma p_evaluates_strtok_token_and_prints_signed :
  let rest := String Libc.tab " $pc" in
  (first_whitespace_token rest = Some "$pc"
   ∧ @isa_reg_str2val demo "$pc" (machine demo_sdb) = (2147483648, true)
   ∧ @dispatch demo ("p " +:+ rest) demo_sdb
     = Ok Continue
          (with_trace
             [IsaRegStr2val (String Libc.tab EmptyString);
              Printf ("Invalid expression" +:+ nl) []]
             (with_strtok_save "$pc" demo_sdb))
   ∧ ¬ (∀ (C : Collaborators) (line rest tok : string) (s : @sdb C),
           Libc.strtok line = Some ("p", rest) →
           first_whitespace_token rest = Some tok →
           ∃ (s' : @sdb C) (ev : event),
             dispatch line s = Ok Continue s'
             ∧ trace s' = trace s ++ [IsaRegStr2val tok; ev]))
  ∧ (output_text (trace (final (@dispatch demo "p $pc" demo_sdb)))
     = "-2147483648" +:+ nl
     ∧ ¬ (∀ (C : Collaborators) (line rest a r : string) (s : @sdb C),
             Libc.strtok line = Some ("p", rest) →
             Libc.strtok rest = Some (a, r) →
             (isa_reg_str2val a (machine s)).2 = true →
             output_text (trace (final (dispatch line s)))
             = output_text (trace s)
               +:+ decimal (isa_reg_str2val a (machine s)).1 +:+ nl)).
Proof.
  assert (Hrun : @dispatch demo ("p " +:+ String Libc.tab " $pc") demo_sdb
                 = Ok Continue
                     (with_trace
                        [IsaRegStr2val (String Libc.tab EmptyString);
                         Printf ("Invalid expression" +:+ nl) []]
                        (with_strtok_save "$pc" demo_sdb)))
    by (vm_compute; reflexivity).
  assert (Hout : output_text (trace (final (@dispatch demo "p $pc" demo_sdb)))
                 = "-2147483648" +:+ nl)
    by (vm_compute; reflexivity).
  split; [split; [reflexivity|]; split; [reflexivity|]; split; [exact Hrun|] | split; [exact Hout|]].
  - intros Hall.
    destruct (Hall demo ("p " +:+ String Libc.tab " $pc") (String Libc.tab " $pc")
                "$pc" demo_sdb eq_refl eq_refl) as (s' & ev & Hd & Ht).
    rewrite Hrun in Hd. injection Hd as <-. discriminate Ht.
  - intros Hall.
    specialize (Hall demo "p $pc" "$pc" "$pc" EmptyString demo_sdb
                  eq_refl eq_refl eq_refl).
    rewrite Hout in Hall. vm_compute in Hall. discriminate Hall.
Qed.

Lemma p_prints_value_or_invalid_witness :
  @dispatch demo "p bogus" demo_sdb
  = Ok Continue
       (with_trace [IsaRegStr2val "bogus"; Printf ("Invalid expression" +:+ nl) []]
          (with_strtok_save EmptyString demo_sdb))
  ∧ @dispatch demo "p $pc" demo_sdb
    = Ok Continue
         (with_trace [IsaRegStr2val "$pc"; Printf ("%d" +:+ nl) [PInt (-2147483648)]]
            (with_strtok_save EmptyString demo_sdb))
  ∧ output_text [Printf ("%d" +:+ nl) [PInt (-2147483648)]] = "-2147483648" +:+ nl.
Proof.
  split; [|split].
  - destruct (@p_prints_value_or_invalid demo "p bogus" "bogus" "bogus" EmptyString demo_sdb)
      as (ev & Hd & _ & Hbad); [reflexivity..|].
    destruct (Hbad eq_refl) as [-> _]. exact Hd.
  - destruct (@p_prints_value_or_invalid demo "p $pc" "$pc" "$pc" EmptyString demo_sdb)
      as (ev & Hd & Hok & _); [reflexivity..|].
    destruct (Hok eq_refl) as [-> _]. exact Hd.
  - destruct (@p_prints_value_or_invalid demo "p $pc" "$pc" "$pc" EmptyString demo_sdb)
      as (ev & _ & Hok & _); [reflexivity..|].
    destruct (Hok eq_refl) as (-> & Hout & _). exact Hout.
Defined.

(** ** Watchpoints *)

Section Watchpoints.

Context `{Collaborators}.

Implicit Types (s : sdb) (w : Store) (i : nat).

Lemma run_command_w args s :
  run_command "w" args cmd_table s
  = (rc ← cmd_w args; if rc <? 0 then mret Terminate else mret Continue) s.
Proof. reflexivity. Qed.

Lemma run_command_d args s :
  run_command "d" args cmd_table s
  = (rc ← cmd_d args; if rc <? 0 then mret Terminate else mret Continue) s.
Proof. reflexivity. Qed.

Lemma free_list_filled i e v w : free_list (filled i e v w) = free_list w.
Proof. reflexivity. Qed.

Lemma active_filled i e v w : active (filled i e v w) = active w.
Proof. reflexivity. Qed.

Lemma filled_consistent i e v w : consistent w → consistent (filled i e v w).
Proof. intros Hc. by apply set_value_consistent, set_expr_consistent. Qed.

Lemma free_wp_filled i j e v w :
  free_list (free_wp i (filled j e v w)) = free_list (free_wp i w)
  ∧ active (free_wp i (filled j e v w)) = active (free_wp i w).
Proof.
  unfold free_wp. rewrite active_filled.
  destruct (decide (i ∈ active w)); split; reflexivity.
Qed.

(** [cmd_w] on an expression that the evaluator rejects. *)
Lemma cmd_w_invalid args s a r i w1 :
  Libc.strtok (strtok_save s) = Some (a, r) →
  new_wp (store s) = Some (i, w1) →
  (isa_reg_str2val a (machine s)).2 = false →
  cmd_w args s
  = Ok 0 (with_store
            (free_wp i (filled i a (to_uint (isa_reg_str2val a (machine s)).1) w1))
            (with_trace
               (trace s ++ [IsaRegStr2val a; Printf ("Invalid expression" +:+ nl) []])
               (with_strtok_save r s))).
Proof.
  intros Ha Hn Hbad. unfold cmd_w. rewrite !bind_unfold. unfold_monad.
  rewrite Ha. cbn. rewrite Hn. cbn.
  destruct (isa_reg_str2val a (machine s)) as [v ok]. cbn in *. subst ok. cbn.
  by rewrite <- app_assoc.
Qed.

(** [cmd_w] on an expression that the evaluator accepts. *)
Lemma cmd_w_valid args s a r i w1 :
  Libc.strtok (strtok_save s) = Some (a, r) →
  new_wp (store s) = Some (i, w1) →
  (isa_reg_str2val a (machine s)).2 = true →
  cmd_w args s
  = Ok 0 (with_store
            (filled i a (to_uint (isa_reg_str2val a (machine s)).1) w1)
            (with_trace (trace s ++ [IsaRegStr2val a]) (with_strtok_save r s))).
Proof.
  intros Ha Hn Hok. unfold cmd_w. rewrite !bind_unfold. unfold_monad.
  rewrite Ha. cbn. rewrite Hn. cbn.
  destruct (isa_reg_str2val a (machine s)) as [v ok]. cbn in *. subst ok. cbn.
  reflexivity.
Qed.

(** [cmd_w] on an exhausted pool: the pointer it writes through is null. *)
Lemma cmd_w_exhausted args s a r :
  Libc.strtok (strtok_save s) = Some (a, r) →
  new_wp (store s) = None →
  cmd_w args s = Crash (with_strtok_save r s).
Proof.
  intros Ha Hn. unfold cmd_w. rewrite !bind_unfold. unfold_monad.
  rewrite Ha. cbn. rewrite Hn. reflexivity.
Qed.

(** [cmd_d] with an argument: the number read, or else what the
    uninitialised [n] contains, goes to [free_wp_by_num]. *)
Lemma cmd_d_arg args s a r :
  Libc.strtok (strtok_save s) = Some (a, r) →
  cmd_d args s
  = Ok 0 (with_store
            (free_wp_by_num (sscanf_d a (to_int (indeterminate (uninit_reads s))))
               (store s))
            (with_uninit_reads (S (uninit_reads s)) (with_strtok_save r s))).
Proof.
  intros Ha. unfold cmd_d. rewrite !bind_unfold. unfold_monad.
  rewrite Ha. reflexivity.
Qed.

(** C1: a dispatched [w] with a token that the evaluator rejects.  When
    [new_wp] hands out a slot [i], the handler returns with the pool in
    exactly the state that results from writing the token and the word
    into slot [i] of the pool as [new_wp] left it, in which [i] is active,
    and then calling [free_wp] on that same [i]; the only events are the
    call of the evaluator and the line [Invalid expression], which is all
    that is printed and carries no number.  On a consistent pool this means
    that the occupancy, one higher in between, is what it was before the
    command, as are the free list and the active set, that [i] is free
    again and not active, and that the pool is still consistent.  When
    [new_wp] hands out no slot, nothing is allocated and the evaluation is
    never reached: the handler has written through the null pointer. *)
Theorem w_invalid_expression_rolls_back (line rest a r : string) (s : sdb) :
  Libc.strtok line = Some ("w", rest) →
  Libc.strtok rest = Some (a, r) →
  (isa_reg_str2val a (machine s)).2 = false →
  match new_wp (store s) with
  | Some (i, w1) =>
      let word := to_uint (isa_reg_str2val a (machine s)).1 in
      let out := [IsaRegStr2val a; Printf ("Invalid expression" +:+ nl) []] in
      let w' := free_wp i (filled i a word w1) in
      dispatch line s
      = Ok Continue
           (with_store w' (with_trace (trace s ++ out) (with_strtok_save r s)))
      ∧ head (free_list (store s)) = Some i
      ∧ i ∈ active (filled i a word w1)
      ∧ slots w' = alter (fun wp => mkWP (NO wp) a word) i (slots (store s))
      ∧ output_text out = "Invalid expression" +:+ nl
      ∧ (consistent (store s) →
         occupancy (filled i a word w1) = S (occupancy (store s))
         ∧ i ∈ free_list w' ∧ (i ∉ active w')
         ∧ free_list w' = free_list (store s)
         ∧ active w' = active (store s)
         ∧ occupancy w' = occupancy (store s)
         ∧ consistent w')
  | None => dispatch line s = Crash (with_strtok_save r s)
  end.
Proof.
  intros Ht Ha Hbad.
  rewrite (dispatch_token _ _ _ _ Ht), run_command_w, bind_unfold.
  destruct (new_wp (store s)) as [[i w1]|] eqn:Hn.
  2:{ by rewrite (cmd_w_exhausted _ _ a r). }
  rewrite (cmd_w_invalid _ _ a r i w1) by done.
  change (machine (with_strtok_save rest s)) with (machine s).
  set (word := to_uint (isa_reg_str2val a (machine s)).1).
  destruct (free_wp_filled i i a word w1) as [Hfl' Hact'].
  pose proof (new_wp_Some _ _ _ Hn) as (fl & Hhd & Hw1).
  assert (Hin : i ∈ active w1) by (subst w1; cbn; set_solver).
  cbn zeta.
  split; [reflexivity|]. split; [by rewrite Hhd|]. split; [done|].
  split.
  { unfold free_wp. rewrite active_filled. rewrite decide_True by done.
    subst w1. cbn. rewrite list_alter_alter_eq. by apply list_alter_ext. }
  split; [reflexivity|].
  intros Hc. destruct (free_wp_new_wp _ _ _ Hc Hn) as [Hfl Hact].
  rewrite Hfl', Hact', Hfl, Hact.
  split; [by apply (new_wp_occupancy (store s) i w1)|].
  split; [rewrite Hhd; left|].
  split; [by eapply new_wp_fresh|].
  do 2 (split; [done|]).
  split; [unfold occupancy; by rewrite Hact', Hact|].
  apply free_wp_consistent, filled_consistent. by eapply new_wp_consistent.
Qed.

(** On an exhausted pool, with the allocation failing as modelled, the
    same command does not return: [cmd_w] writes through the pointer it
    got from [new_wp] without a test. *)
Lemma w_on_exhausted_pool_crashes (line rest a r : string) (s : sdb) :
  Libc.strtok line = Some ("w", rest) →
  Libc.strtok rest = Some (a, r) →
  free_list (store s) = [] →
  dispatch line s = Crash (with_strtok_save r s).
Proof.
  intros Ht Ha Hfl.
  rewrite (dispatch_token _ _ _ _ Ht), run_command_w, bind_unfold.
  rewrite (cmd_w_exhausted _ _ a r); [reflexivity | done |].
  unfold new_wp. cbn. by rewrite Hfl.
Qed.

End Watchpoints.

Lemma w_invalid_expression_rolls_back_witness :
  ∃ s' : @sdb demo,
    @dispatch demo "w bogus" demo_sdb = Ok Continue s'
    ∧ slots (store s')
      = [mkWP 0 "bogus" 0; mkWP 1 EmptyString 0; mkWP 2 EmptyString 0;
         mkWP 3 EmptyString 0]
    ∧ free_list (store s') = [0; 1; 2; 3]%nat
    ∧ active (store s') = active (store demo_sdb)
    ∧ occupancy (store s') = 0%nat
    ∧ trace s' = [IsaRegStr2val "bogus"; Printf ("Invalid expression" +:+ nl) []].
Proof.
  pose proof (@w_invalid_expression_rolls_back demo "w bogus" "bogus" "bogus"
                EmptyString demo_sdb eq_refl eq_refl eq_refl) as Hw.
  change (@new_wp (@store demo demo_sdb))
    with (Some (0%nat, mkStore (slots (init_wp_pool 4)) [1; 2; 3]%nat
                         ({[ 0%nat ]} ∪ ∅))) in Hw.
  cbn zeta in Hw. cbv beta iota in Hw.
  destruct Hw as (Hd & _ & _ & Hsl & _ & Hc).
  destruct (Hc (consistent_init 4)) as (_ & _ & _ & Hfl & Hact & Hocc & _).
  eexists. split; [exact Hd|].
  split; [exact Hsl|]. split; [exact Hfl|]. split; [exact Hact|].
  split; [exact Hocc | reflexivity].
Defined.

(** ** The pool stays partitioned under every command *)

Create HintDb ksc discriminated.

Section PoolInvariant.

Context `{Collaborators}.

Implicit Types (s : sdb) (w : Store) (i : nat).

Lemma ksc_ret {A} (a : A) : keeps_store_consistent (mret a).
Proof. intros s Hc. exact Hc. Qed.

Lemma ksc_bind {A B} (m : M A) (f : A → M B) :
  keeps_store_consistent m →
  (∀ a, keeps_store_consistent (f a)) →
  keeps_store_consistent (m ≫= f).
Proof.
  intros Hm Hf s Hc. rewrite bind_unfold. specialize (Hm s Hc).
  destruct (m s) as [a s'|s']; [by apply Hf | done].
Qed.

Lemma ksc_same_store {A} (m : M A) :
  (∀ s, store (final (m s)) = store s) → keeps_store_consistent m.
Proof. intros Hm s Hc. by rewrite Hm. Qed.

Lemma ksc_crash {A} : keeps_store_consistent (@crash _ A).
Proof. by apply ksc_same_store. Qed.

Lemma ksc_emit e : keeps_store_consistent (emit e).
Proof. by apply ksc_same_store. Qed.

Lemma ksc_printf fmt args : keeps_store_consistent (printf fmt args).
Proof. by apply ksc_same_store. Qed.

Lemma ksc_strtok_from str : keeps_store_consistent (strtok_from str).
Proof.
  apply ksc_same_store. intros s. unfold strtok_from.
  by destruct (Libc.strtok str) as [[tok rest]|].
Qed.

Lemma ksc_strtok_next : keeps_store_consistent strtok_next.
Proof. intros s. apply ksc_strtok_from. Qed.

Lemma ksc_strtok_position : keeps_store_consistent strtok_position.
Proof. by apply ksc_same_store. Qed.

Lemma ksc_set_nemu_state v : keeps_store_consistent (set_nemu_state v).
Proof. by apply ksc_same_store. Qed.

Lemma ksc_strcmp_eq a b : keeps_store_consistent (strcmp_eq a b).
Proof. apply ksc_same_store. by destruct a. Qed.

Lemma ksc_uninit_int : keeps_store_consistent uninit_int.
Proof. by apply ksc_same_store. Qed.

Lemma ksc_uninit_vaddr : keeps_store_consistent uninit_vaddr.
Proof. by apply ksc_same_store. Qed.

Lemma ksc_call_cpu_exec n : keeps_store_consistent (call_cpu_exec n).
Proof. by apply ksc_same_store. Qed.

Lemma ksc_call_isa_reg_display : keeps_store_consistent call_isa_reg_display.
Proof. by apply ksc_same_store. Qed.

Lemma ksc_call_vaddr_read a l : keeps_store_consistent (call_vaddr_read a l).
Proof. by apply ksc_same_store. Qed.

Lemma ksc_call_isa_reg_str2val e : keeps_store_consistent (call_isa_reg_str2val e).
Proof. by apply ksc_same_store. Qed.

Lemma ksc_call_new_wp : keeps_store_consistent call_new_wp.
Proof.
  intros s Hc. unfold call_new_wp.
  destruct (new_wp (store s)) as [[i w]|] eqn:Hn; [|done].
  by eapply new_wp_consistent.
Qed.

Lemma ksc_call_free_wp wp : keeps_store_consistent (call_free_wp wp).
Proof.
  intros s Hc. destruct wp as [i|]; [|done]. by apply free_wp_consistent.
Qed.

Lemma ksc_call_free_wp_by_num n : keeps_store_consistent (call_free_wp_by_num n).
Proof. intros s Hc. by apply free_wp_by_num_consistent. Qed.

Lemma ksc_wp_strcpy_expr wp e : keeps_store_consistent (wp_strcpy_expr wp e).
Proof.
  intros s Hc. destruct wp as [i|]; [|done]. by apply set_expr_consistent.
Qed.

Lemma ksc_wp_assign_value wp v : keeps_store_consistent (wp_assign_value wp v).
Proof.
  intros s Hc. destruct wp as [i|]; [|done]. by apply set_value_consistent.
Qed.

Hint Resolve ksc_crash ksc_emit ksc_printf ksc_strtok_from ksc_strtok_next
  ksc_strtok_position ksc_set_nemu_state ksc_strcmp_eq ksc_uninit_int
  ksc_uninit_vaddr ksc_call_cpu_exec ksc_call_isa_reg_display
  ksc_call_vaddr_read ksc_call_isa_reg_str2val ksc_call_new_wp
  ksc_call_free_wp ksc_call_free_wp_by_num ksc_wp_strcpy_expr
  ksc_wp_assign_value : ksc.

Ltac ksc_step :=
  match goal with
  | |- keeps_store_consistent (mret _) => apply ksc_ret
  | |- keeps_store_consistent (_ ≫= _) => apply ksc_bind; [|intros]
  | |- keeps_store_consistent (match ?x with _ => _ end) => destruct x
  | |- keeps_store_consistent _ => solve [auto with ksc]
  end.

Lemma ksc_x_bytes j a : keeps_store_consistent (x_bytes j a).
Proof. revert a. induction j as [|j IH]; intros a; cbn [x_bytes]; repeat ksc_step. Qed.

Hint Resolve ksc_x_bytes : ksc.

Lemma ksc_x_rows k a : keeps_store_consistent (x_rows k a).
Proof. revert a. induction k as [|k IH]; intros a; cbn [x_rows]; repeat ksc_step. Qed.

Lemma ksc_help_all tbl : keeps_store_consistent (help_all tbl).
Proof.
  induction tbl as [|d tbl IH]; cbn [help_all]; unfold print_description;
    repeat ksc_step.
Qed.

Lemma ksc_help_one a tbl : keeps_store_consistent (help_one a tbl).
Proof.
  induction tbl as [|d tbl IH]; cbn [help_one]; unfold print_description;
    repeat ksc_step.
Qed.

Hint Resolve ksc_x_rows ksc_help_all ksc_help_one : ksc.

Lemma ksc_cmd_help args : keeps_store_consistent (cmd_help args).
Proof. unfold cmd_help. repeat ksc_step. Qed.

Lemma ksc_cmd_help_fixed args : keeps_store_consistent (cmd_help_fixed args).
Proof. unfold cmd_help_fixed. repeat ksc_step. Qed.

Lemma ksc_cmd_c args : keeps_store_consistent (cmd_c args).
Proof. unfold cmd_c. repeat ksc_step. Qed.

Lemma ksc_cmd_q args : keeps_store_consistent (cmd_q args).
Proof. unfold cmd_q. repeat ksc_step. Qed.

Lemma ksc_cmd_si args : keeps_store_consistent (cmd_si args).
Proof. unfold cmd_si. repeat ksc_step. Qed.

Lemma ksc_cmd_info args : keeps_store_consistent (cmd_info args).
Proof. unfold cmd_info. repeat ksc_step. Qed.

Lemma ksc_cmd_x args : keeps_store_consistent (cmd_x args).
Proof. unfold cmd_x. repeat ksc_step. Qed.

Lemma ksc_cmd_p args : keeps_store_consistent (cmd_p args).
Proof. unfold cmd_p. repeat ksc_step. Qed.

Lemma ksc_cmd_w args : keeps_store_consistent (cmd_w args).
Proof. unfold cmd_w. repeat ksc_step. Qed.

Lemma ksc_cmd_d args : keeps_store_consistent (cmd_d args).
Proof. unfold cmd_d. repeat ksc_step. Qed.

Lemma ksc_table (e : cmd_entry) args :
  e ∈ cmd_table → keeps_store_consistent (handler e args).
Proof.
  unfold cmd_table. intros He.
  repeat (apply elem_of_cons in He as [-> | He]); simpl;
    auto using ksc_cmd_help_fixed, ksc_cmd_c, ksc_cmd_q, ksc_cmd_si, ksc_cmd_info,
      ksc_cmd_x, ksc_cmd_p, ksc_cmd_w, ksc_cmd_d.
  by apply elem_of_nil in He.
Qed.

Lemma ksc_run_command cmd args (tbl : list cmd_entry) :
  (∀ e, e ∈ tbl → keeps_store_consistent (handler e args)) →
  keeps_store_consistent (run_command cmd args tbl).
Proof.
  induction tbl as [|e tbl IH]; intros Hh; cbn [run_command].
  - repeat ksc_step.
  - destruct (String.eqb cmd (name e)).
    + apply ksc_bind; [apply Hh; left | intros rc; repeat ksc_step].
    + apply IH. intros e' He'. apply Hh. by right.
Qed.

Lemma ksc_dispatch line : keeps_store_consistent (dispatch line).
Proof.
  unfold dispatch. apply ksc_bind; [auto with ksc|].
  intros [cmd|]; [|apply ksc_ret].
  apply ksc_bind; [auto with ksc|]. intros rest.
  apply ksc_run_command. intros e. apply ksc_table.
Qed.

Lemma ksc_rl_gets line : keeps_store_consistent (rl_gets line).
Proof. apply ksc_same_store. by destruct line. Qed.

Lemma ksc_mainloop lines : keeps_store_consistent (mainloop lines).
Proof.
  induction lines as [|line lines IH]; cbn [mainloop]; [apply ksc_ret|].
  apply ksc_bind; [apply ksc_rl_gets|]. intros str.
  apply ksc_bind; [apply ksc_dispatch|]. intros [|]; [exact IH | apply ksc_ret].
Qed.

Lemma ksc_sdb_mainloop lines : keeps_store_consistent (sdb_mainloop lines).
Proof.
  intros s Hc. unfold sdb_mainloop. destruct (is_batch_mode s).
  - by apply (ksc_bind (cmd_c None) (fun _ => mret lines));
      [apply ksc_cmd_c | intros; apply ksc_ret |].
  - by apply ksc_mainloop.
Qed.

End PoolInvariant.

(** ** Deleting watchpoints *)

Section Deleting.

Context `{Collaborators}.

Implicit Types (s : sdb) (w : Store) (i : nat).

Lemma dispatch_d_number line rest a r n s :
  Libc.strtok line = Some ("d", rest) →
  Libc.strtok rest = Some (a, r) →
  Libc.scan_d a = Some n →
  dispatch line s
  = Ok Continue
       (with_store (free_wp_by_num n (store s))
          (with_uninit_reads (S (uninit_reads s)) (with_strtok_save r s))).
Proof.
  intros Ht Ha Hn.
  rewrite (dispatch_token _ _ _ _ Ht), run_command_d, bind_unfold.
  rewrite (cmd_d_arg _ _ a r) by done. unfold sscanf_d. rewrite Hn. reflexivity.
Qed.

Lemma dispatch_w_valid line rest a r i w1 s :
  Libc.strtok line = Some ("w", rest) →
  Libc.strtok rest = Some (a, r) →
  new_wp (store s) = Some (i, w1) →
  (isa_reg_str2val a (machine s)).2 = true →
  dispatch line s
  = Ok Continue
       (with_store (filled i a (to_uint (isa_reg_str2val a (machine s)).1) w1)
          (with_trace (trace s ++ [IsaRegStr2val a]) (with_strtok_save r s))).
Proof.
  intros Ht Ha Hn Hok.
  rewrite (dispatch_token _ _ _ _ Ht), run_command_w, bind_unfold.
  rewrite (cmd_w_valid _ _ a r i w1) by done. reflexivity.
Qed.

(** C2: whatever lines the main loop is given, the pool is consistent in
    the state the loop ends in, whether it starts from the initial pool or
    from any consistent one, and so it is after any sequence of
    allocations and releases; a dispatched [d] with a number
    that names no active watchpoint leaves the store as it was and prints
    nothing; and [w] with a valid expression followed by [d] with the
    number of the slot it took brings the occupancy and the active set back
    to what they were, after which the same [d] again changes nothing. *)
Theorem release_keeps_pool_consistent :
  (∀ (cap : nat) (m : Machine) (lines : list string),
     consistent (store (final (sdb_mainloop lines (init_sdb cap m)))))
  ∧ (∀ (lines : list string) (s : sdb),
       consistent (store s) → consistent (store (final (sdb_mainloop lines s))))
  ∧ (∀ (os : list op) (w : Store), consistent w → consistent (run_ops os w))
  ∧ (∀ (line rest a r : string) (n : Z) (s : sdb),
       Libc.strtok line = Some ("d", rest) →
       Libc.strtok rest = Some (a, r) →
       Libc.scan_d a = Some n →
       ¬ (0 ≤ n ∧ Z.to_nat n ∈ active (store s)) →
       ∃ s' : sdb,
         dispatch line s = Ok Continue s' ∧ store s' = store s ∧ trace s' = trace s)
  ∧ (∀ (line_w rest_w e r_w line_d rest_d a r_d : string)
       (i : nat) (fl : list nat) (s : sdb),
       consistent (store s) →
       free_list (store s) = i :: fl →
       Libc.strtok line_w = Some ("w", rest_w) →
       Libc.strtok rest_w = Some (e, r_w) →
       (isa_reg_str2val e (machine s)).2 = true →
       Libc.strtok line_d = Some ("d", rest_d) →
       Libc.strtok rest_d = Some (a, r_d) →
       Libc.scan_d a = Some (Z.of_nat i) →
       ∃ s1 s2 s3 : sdb,
         dispatch line_w s = Ok Continue s1
         ∧ i ∈ active (store s1)
         ∧ occupancy (store s1) = S (occupancy (store s))
         ∧ dispatch line_d s1 = Ok Continue s2
         ∧ occupancy (store s2) = occupancy (store s)
         ∧ active (store s2) = active (store s)
         ∧ free_list (store s2) = free_list (store s)
         ∧ dispatch line_d s2 = Ok Continue s3
         ∧ store s3 = store s2
         ∧ consistent (store s3)).
Proof.
  split; [intros cap m lines; apply ksc_sdb_mainloop, consistent_init|].
  split; [intros lines; apply ksc_sdb_mainloop|].
  split; [intros os w; apply run_ops_consistent|].
  split.
  - intros line rest a r n s Ht Ha Hn Hunknown.
    eexists. split; [exact (dispatch_d_number line rest a r n s Ht Ha Hn)|].
    cbn. split; [by apply free_wp_by_num_unknown | done].
  - intros line_w rest_w e r_w line_d rest_d a r_d i fl s
      Hc Hfl Htw He Hok Htd Ha Hn.
    assert (new_wp (store s)
            = Some (i, mkStore (slots (store s)) fl ({[ i ]} ∪ active (store s))))
      as Hnew by (unfold new_wp; by rewrite Hfl).
    set (w1 := mkStore (slots (store s)) fl ({[ i ]} ∪ active (store s))) in *.
    set (v := to_uint (isa_reg_str2val e (machine s)).1).
    destruct (free_wp_new_wp _ _ _ Hc Hnew) as [Hfl1 Hact1].
    destruct (free_wp_filled i i e v w1) as [Hfl2 Hact2].
    eexists _, _, _.
    split; [exact (dispatch_w_valid line_w rest_w e r_w i w1 s Htw He Hnew Hok)|].
    split; [cbn; set_solver|].
    split; [cbn; by apply (new_wp_occupancy (store s) i w1)|].
    split; [exact (dispatch_d_number line_d rest_d a r_d (Z.of_nat i) _ Htd Ha Hn)|]. cbn.
    rewrite free_wp_by_num_nat. fold v.
    split; [unfold occupancy; by rewrite Hact2, Hact1|].
    split; [by rewrite Hact2, Hact1|].
    split; [by rewrite Hfl2, Hfl1|].
    split; [exact (dispatch_d_number line_d rest_d a r_d (Z.of_nat i) _ Htd Ha Hn)|]. cbn.
    rewrite free_wp_by_num_nat.
    split; [apply free_wp_inactive, free_wp_not_active|].
    apply free_wp_consistent, free_wp_consistent, filled_consistent.
    by apply (new_wp_consistent (store s) i w1).
Qed.

End Deleting.

Lemma release_keeps_pool_consistent_witness :
  ∃ s1 s2 s3 : @sdb demo,
    @dispatch demo "w $pc" demo_sdb = Ok Continue s1
    ∧ occupancy (store s1) = 1%nat
    ∧ @dispatch demo "d 0" s1 = Ok Continue s2
    ∧ occupancy (store s2) = 0%nat
    ∧ @dispatch demo "d 0" s2 = Ok Continue s3
    ∧ store s3 = store s2
    ∧ consistent (store s3)
    ∧ consistent (store (final (@sdb_mainloop demo ["w $pc"; "d 7"; "d x"; "d 0"] demo_sdb))).
Proof.
  destruct (@release_keeps_pool_consistent demo) as (_ & Hloop & _ & _ & Hwdd).
  destruct (Hwdd "w $pc" "$pc" "$pc" EmptyString "d 0" "0" "0" EmptyString 0%nat [1; 2; 3]%nat demo_sdb)
    as (s1 & s2 & s3 & Hw & _ & Ho1 & Hd & Ho2 & _ & _ & Hd' & Hs & Hc);
    [apply consistent_init | reflexivity..|].
  exists s1, s2, s3.
  split; [exact Hw|]. split; [exact Ho1|]. split; [exact Hd|].
  split; [exact Ho2|]. split; [exact Hd'|]. split; [exact Hs|].
  split; [exact Hc|].
  apply Hloop, consistent_init.
Defined.

(** ** Which commands can crash *)

Create HintDb nc discriminated.

Section Safety.

Context `{Collaborators}.

Implicit Types (s : sdb).

Lemma never_crashes_ret {A} (a : A) : never_crashes (mret a).
Proof. intros s. by exists a, s. Qed.

Lemma never_crashes_bind {A B} (m : M A) (f : A → M B) :
  never_crashes m → (∀ a, never_crashes (f a)) → never_crashes (m ≫= f).
Proof.
  intros Hm Hf s. rewrite bind_unfold.
  destruct (Hm s) as (a & s' & ->). apply Hf.
Qed.

Lemma never_crashes_emit e : never_crashes (emit e).
Proof. intros s. eexists _, _. reflexivity. Qed.

Lemma never_crashes_printf fmt args : never_crashes (printf fmt args).
Proof. apply never_crashes_emit. Qed.

Lemma never_crashes_strtok_from str : never_crashes (strtok_from str).
Proof.
  intros s. unfold strtok_from.
  destruct (Libc.strtok str) as [[tok rest]|]; eexists _, _; reflexivity.
Qed.

Lemma never_crashes_strtok_next : never_crashes strtok_next.
Proof. intros s. apply never_crashes_strtok_from. Qed.

Lemma never_crashes_strtok_position : never_crashes strtok_position.
Proof. intros s. eexists _, _. reflexivity. Qed.

Lemma never_crashes_set_nemu_state v : never_crashes (set_nemu_state v).
Proof. intros s. eexists _, _. reflexivity. Qed.

Lemma never_crashes_uninit_int : never_crashes uninit_int.
Proof. intros s. eexists _, _. reflexivity. Qed.

Lemma never_crashes_uninit_vaddr : never_crashes uninit_vaddr.
Proof. intros s. eexists _, _. reflexivity. Qed.

Lemma never_crashes_call_cpu_exec n : never_crashes (call_cpu_exec n).
Proof. intros s. eexists _, _. reflexivity. Qed.

Lemma never_crashes_call_vaddr_read a l : never_crashes (call_vaddr_read a l).
Proof. intros s. eexists _, _. reflexivity. Qed.

Lemma never_crashes_call_isa_reg_str2val e : never_crashes (call_isa_reg_str2val e).
Proof. intros s. eexists _, _. reflexivity. Qed.

Lemma never_crashes_call_free_wp_by_num n : never_crashes (call_free_wp_by_num n).
Proof. intros s. eexists _, _. reflexivity. Qed.

Hint Resolve never_crashes_emit never_crashes_printf never_crashes_strtok_from
  never_crashes_strtok_next never_crashes_strtok_position
  never_crashes_set_nemu_state never_crashes_uninit_int
  never_crashes_uninit_vaddr never_crashes_call_cpu_exec
  never_crashes_call_vaddr_read never_crashes_call_isa_reg_str2val
  never_crashes_call_free_wp_by_num : nc.

Ltac nc_step :=
  match goal with
  | |- never_crashes (mret _) => apply never_crashes_ret
  | |- never_crashes (_ ≫= _) => apply never_crashes_bind; [|intros]
  | |- never_crashes (match ?x with _ => _ end) => destruct x
  | |- never_crashes _ => solve [auto with nc]
  end.

Lemma never_crashes_x_bytes j a : never_crashes (x_bytes j a).
Proof. revert a. induction j as [|j IH]; intros a; cbn [x_bytes]; repeat nc_step. Qed.

Hint Resolve never_crashes_x_bytes : nc.

Lemma never_crashes_x_rows k a : never_crashes (x_rows k a).
Proof. revert a. induction k as [|k IH]; intros a; cbn [x_rows]; repeat nc_step. Qed.

Lemma never_crashes_help_all tbl : never_crashes (help_all tbl).
Proof.
  induction tbl as [|d tbl IH]; cbn [help_all]; unfold print_description;
    repeat nc_step.
Qed.

Lemma never_crashes_help_one a tbl : never_crashes (help_one a tbl).
Proof.
  induction tbl as [|d tbl IH]; cbn [help_one]; unfold print_description;
    repeat nc_step.
Qed.

Hint Resolve never_crashes_x_rows never_crashes_help_all never_crashes_help_one : nc.

Lemma never_crashes_cmd_help args : never_crashes (cmd_help args).
Proof. unfold cmd_help. repeat nc_step. Qed.

Lemma never_crashes_cmd_help_fixed args : never_crashes (cmd_help_fixed args).
Proof. unfold cmd_help_fixed. repeat nc_step. Qed.

Lemma never_crashes_cmd_c args : never_crashes (cmd_c args).
Proof. unfold cmd_c. repeat nc_step. Qed.

Lemma never_crashes_cmd_q args : never_crashes (cmd_q args).
Proof. unfold cmd_q. repeat nc_step. Qed.

Lemma never_crashes_cmd_si args : never_crashes (cmd_si args).
Proof. unfold cmd_si. repeat nc_step. Qed.

Lemma never_crashes_cmd_x args : never_crashes (cmd_x args).
Proof. unfold cmd_x. repeat nc_step. Qed.

Lemma never_crashes_cmd_p args : never_crashes (cmd_p args).
Proof. unfold cmd_p. repeat nc_step. Qed.

Lemma never_crashes_cmd_d args : never_crashes (cmd_d args).
Proof. unfold cmd_d. repeat nc_step. Qed.

Lemma never_crashes_table (e : cmd_entry) args :
  e ∈ cmd_table → name e ≠ "info" → name e ≠ "w" →
  never_crashes (handler e args).
Proof.
  unfold cmd_table. intros He Hi Hw.
  repeat (apply elem_of_cons in He as [-> | He]); simpl in *;
    auto using never_crashes_cmd_help_fixed, never_crashes_cmd_c, never_crashes_cmd_q,
      never_crashes_cmd_si, never_crashes_cmd_x, never_crashes_cmd_p,
      never_crashes_cmd_d; try done.
  by apply elem_of_nil in He.
Qed.

Lemma never_crashes_run_command cmd args (tbl : list cmd_entry) :
  (∀ e, e ∈ tbl → name e = cmd → never_crashes (handler e args)) →
  never_crashes (run_command cmd args tbl).
Proof.
  induction tbl as [|e tbl IH]; intros Hh; cbn [run_command].
  - repeat nc_step.
  - destruct (String.eqb cmd (name e)) eqn:Heq.
    + apply String.eqb_eq in Heq.
      apply never_crashes_bind; [apply Hh; [left | done] | intros rc; repeat nc_step].
    + apply IH. intros e' He'. apply Hh. by right.
Qed.

(** Every line whose command is neither [info] nor [w] is dispatched to
    completion: no handler but those two can crash. *)
Lemma dispatch_safe_outside_info_and_w (line : string) (s : sdb) :
  (∀ rest, Libc.strtok line ≠ Some ("info", rest)) →
  (∀ rest, Libc.strtok line ≠ Some ("w", rest)) →
  ∃ r s', dispatch line s = Ok r s'.
Proof.
  intros Hi Hw.
  destruct (Libc.strtok line) as [[cmd rest]|] eqn:Ht.
  - rewrite (dispatch_token _ _ _ _ Ht).
    apply never_crashes_run_command.
    intros e He <-. apply never_crashes_table; [done | |]; intros Hbad.
    + apply (Hi rest). by rewrite Hbad.
    + apply (Hw rest). by rewrite Hbad.
  - rewrite (dispatch_no_token _ _ Ht). eauto.
Qed.

End Safety.

(** * Properties of the whole command set *)

(** ** What a command may append to the trace *)

Create HintDb ap discriminated.

Section AppendsFacts.

Context `{Collaborators}.

Implicit Types (s : sdb) (Q : event → Prop).

Lemma appends_ret Q {A} (a : A) : appends Q (mret a).
Proof. intros s. exists []. split; [by rewrite app_nil_r | constructor]. Qed.

Lemma appends_bind Q {A B} (m : M A) (f : A → M B) :
  appends Q m → (∀ a, appends Q (f a)) → appends Q (m ≫= f).
Proof.
  intros Hm Hf s. rewrite bind_unfold.
  destruct (Hm s) as (o1 & E1 & F1).
  destruct (m s) as [a s'|s']; simpl in *; [|by exists o1].
  destruct (Hf a s') as (o2 & E2 & F2).
  exists (o1 ++ o2). rewrite E2, E1, app_assoc.
  split; [done | by apply Forall_app].
Qed.

Lemma appends_silent Q {A} (m : M A) :
  (∀ s, trace (final (m s)) = trace s) → appends Q m.
Proof.
  intros Hm s. exists []. split; [by rewrite app_nil_r, Hm | constructor].
Qed.

Lemma appends_emit Q e : Q e → appends Q (emit e).
Proof. intros He s. exists [e]. split; [done | by repeat constructor]. Qed.

Lemma appends_printf Q fmt args : Q (Printf fmt args) → appends Q (printf fmt args).
Proof. apply appends_emit. Qed.

Lemma appends_crash Q {A} : appends Q (@crash _ A).
Proof. by apply appends_silent. Qed.

Lemma appends_strtok_from Q str : appends Q (strtok_from str).
Proof.
  apply appends_silent. intros s. unfold strtok_from.
  by destruct (Libc.strtok str) as [[tok rest]|].
Qed.

Lemma appends_strtok_next Q : appends Q strtok_next.
Proof. intros s. apply appends_strtok_from. Qed.

Lemma appends_strtok_position Q : appends Q strtok_position.
Proof. by apply appends_silent. Qed.

Lemma appends_set_nemu_state Q v : appends Q (set_nemu_state v).
Proof. by apply appends_silent. Qed.

Lemma appends_strcmp_eq Q a b : appends Q (strcmp_eq a b).
Proof. apply appends_silent. by destruct a. Qed.

Lemma appends_uninit_int Q : appends Q uninit_int.
Proof. by apply appends_silent. Qed.

Lemma appends_uninit_vaddr Q : appends Q uninit_vaddr.
Proof. by apply appends_silent. Qed.

Lemma appends_call_cpu_exec Q n : Q (CpuExec n) → appends Q (call_cpu_exec n).
Proof. intros He s. exists [CpuExec n]. split; [done | by repeat constructor]. Qed.

Lemma appends_call_isa_reg_display Q : Q IsaRegDisplay → appends Q call_isa_reg_display.
Proof. apply appends_emit. Qed.

Lemma appends_call_vaddr_read Q a l :
  Q (VaddrRead a l) → appends Q (call_vaddr_read a l).
Proof. intros He s. exists [VaddrRead a l]. split; [done | by repeat constructor]. Qed.

Lemma appends_call_isa_reg_str2val Q e :
  Q (IsaRegStr2val e) → appends Q (call_isa_reg_str2val e).
Proof. intros He s. exists [IsaRegStr2val e]. split; [done | by repeat constructor]. Qed.

Lemma appends_call_new_wp Q : appends Q call_new_wp.
Proof.
  apply appends_silent. intros s. unfold call_new_wp.
  by destruct (new_wp (store s)) as [[i w]|].
Qed.

Lemma appends_call_free_wp Q wp : appends Q (call_free_wp wp).
Proof. apply appends_silent. by destruct wp. Qed.

Lemma appends_call_free_wp_by_num Q n : appends Q (call_free_wp_by_num n).
Proof. by apply appends_silent. Qed.

Lemma appends_wp_strcpy_expr Q wp e : appends Q (wp_strcpy_expr wp e).
Proof. apply appends_silent. by destruct wp. Qed.

Lemma appends_wp_assign_value Q wp v : appends Q (wp_assign_value wp v).
Proof. apply appends_silent. by destruct wp. Qed.

Hint Resolve appends_crash appends_strtok_from appends_strtok_next
  appends_strtok_position appends_set_nemu_state appends_strcmp_eq
  appends_uninit_int appends_uninit_vaddr appends_call_new_wp
  appends_call_free_wp appends_call_free_wp_by_num appends_wp_strcpy_expr
  appends_wp_assign_value appends_printf appends_call_cpu_exec
  appends_call_isa_reg_display appends_call_vaddr_read
  appends_call_isa_reg_str2val : ap.

Ltac ap_step :=
  match goal with
  | |- appends _ (mret _) => apply appends_ret
  | |- appends _ (_ ≫= _) => apply appends_bind; [|intros]
  | |- appends _ (match ?x with _ => _ end) => destruct x
  | |- appends _ _ => solve [eauto with ap]
  end.

Lemma appends_x_bytes Q j a :
  (∀ f args, Q (Printf f args)) → (∀ a l, Q (VaddrRead a l)) →
  appends Q (x_bytes j a).
Proof.
  intros Hp Hr. revert a.
  induction j as [|j IH]; intros a; cbn [x_bytes]; repeat ap_step.
Qed.

Lemma appends_x_rows Q k a :
  (∀ f args, Q (Printf f args)) → (∀ a l, Q (VaddrRead a l)) →
  appends Q (x_rows k a).
Proof.
  intros Hp Hr. revert a.
  induction k as [|k IH]; intros a; cbn [x_rows]; repeat ap_step.
  by apply appends_x_bytes.
Qed.

Lemma appends_help_all Q tbl :
  (∀ f args, Q (Printf f args)) → appends Q (help_all tbl).
Proof.
  intros Hp. induction tbl as [|d tbl IH]; cbn [help_all];
    unfold print_description; repeat ap_step.
Qed.

Lemma appends_help_one Q a tbl :
  (∀ f args, Q (Printf f args)) → appends Q (help_one a tbl).
Proof.
  intros Hp. induction tbl as [|d tbl IH]; cbn [help_one];
    unfold print_description; repeat ap_step.
Qed.

Lemma appends_cmd_help Q args :
  (∀ f a, Q (Printf f a)) → appends Q (cmd_help args).
Proof.
  intros Hp. unfold cmd_help. repeat ap_step;
    [by apply appends_help_one | by apply appends_help_all].
Qed.

Lemma appends_cmd_help_fixed Q args :
  (∀ f a, Q (Printf f a)) → appends Q (cmd_help_fixed args).
Proof. intros Hp. unfold cmd_help_fixed. repeat ap_step. Qed.

Lemma appends_cmd_c Q args : Q (CpuExec (-1)) → appends Q (cmd_c args).
Proof. intros Hc. unfold cmd_c. repeat ap_step. Qed.

Lemma appends_cmd_q Q args : appends Q (cmd_q args).
Proof. unfold cmd_q. repeat ap_step. Qed.

Lemma appends_cmd_si Q args : (∀ n, Q (CpuExec n)) → appends Q (cmd_si args).
Proof. intros Hc. unfold cmd_si. repeat ap_step. Qed.

Lemma appends_cmd_info Q args :
  (∀ f, Q (Printf f [])) → Q IsaRegDisplay → appends Q (cmd_info args).
Proof. intros Hp Hd. unfold cmd_info. repeat ap_step. Qed.

Lemma appends_cmd_x Q args :
  (∀ f a, Q (Printf f a)) → (∀ a l, Q (VaddrRead a l)) → appends Q (cmd_x args).
Proof.
  intros Hp Hr. unfold cmd_x. repeat ap_step. by apply appends_x_rows.
Qed.

Lemma appends_cmd_p Q args :
  (∀ f a, Q (Printf f a)) → (∀ e, Q (IsaRegStr2val e)) → appends Q (cmd_p args).
Proof. intros Hp He. unfold cmd_p. repeat ap_step. Qed.

Lemma appends_cmd_w Q args :
  (∀ f, Q (Printf f [])) → (∀ e, Q (IsaRegStr2val e)) → appends Q (cmd_w args).
Proof. intros Hp He. unfold cmd_w. repeat ap_step. Qed.

Lemma appends_cmd_d Q args : (∀ f, Q (Printf f [])) → appends Q (cmd_d args).
Proof. intros Hp. unfold cmd_d. repeat ap_step. Qed.

Lemma appends_run_command Q cmd args (tbl : list cmd_entry) :
  (∀ e, e ∈ tbl → name e = cmd → appends Q (handler e args)) →
  (∀ f a, Q (Printf f [PStr a])) →
  appends Q (run_command cmd args tbl).
Proof.
  induction tbl as [|e tbl IH]; intros Hh Hp; cbn [run_command].
  - repeat ap_step.
  - destruct (String.eqb cmd (name e)) eqn:Heq.
    + apply String.eqb_eq in Heq.
      apply appends_bind; [apply Hh; [left | done] | intros rc; repeat ap_step].
    + apply IH; [|done]. intros e' He'. apply Hh. by right.
Qed.

(** No handler touches the history. *)
Lemma appends_table_no_history (e : cmd_entry) args :
  e ∈ cmd_table → appends (fun ev => is_history ev = false) (handler e args).
Proof.
  unfold cmd_table. intros He.
  repeat (apply elem_of_cons in He as [-> | He]); simpl.
  - by apply appends_cmd_help_fixed.
  - by apply appends_cmd_c.
  - by apply appends_cmd_q.
  - by apply appends_cmd_si.
  - by apply appends_cmd_info.
  - by apply appends_cmd_x.
  - by apply appends_cmd_p.
  - by apply appends_cmd_w.
  - by apply appends_cmd_d.
  - by apply elem_of_nil in He.
Qed.

Lemma appends_dispatch_no_history line :
  appends (fun ev => is_history ev = false) (dispatch line).
Proof.
  unfold dispatch. apply appends_bind; [auto with ap|].
  intros [cmd|]; [|apply appends_ret].
  apply appends_bind; [auto with ap|]. intros rest.
  apply appends_run_command; [|done].
  intros e He _. by apply appends_table_no_history.
Qed.

Lemma history_app t1 t2 : history (t1 ++ t2) = history t1 ++ history t2.
Proof. apply omap_app. Qed.

Lemma history_no_history out :
  Forall (fun ev => is_history ev = false) out → history out = [].
Proof.
  induction 1 as [|e out He _ IH]; [done|].
  destruct e; try discriminate; exact IH.
Qed.

End AppendsFacts.

Section Footprint.

Context `{Collaborators}.

Implicit Types (s : sdb).

(** X1: whatever a line does, it only appends to the trace, and what it
    appends is within the means of its command: the engine is called by
    [c] and [si] alone, the register dump by [info], memory is read by [x]
    alone, the evaluator is called by [p] and [w] alone, and no command
    writes to the history. *)
Theorem command_footprint (line cmd rest : string) (s : sdb) :
  Libc.strtok line = Some (cmd, rest) →
  ∃ out : list event,
    trace (final (dispatch line s)) = trace s ++ out
    ∧ Forall (fun e => may_emit cmd e = true) out.
Proof.
  intros Ht. rewrite (dispatch_token _ _ _ _ Ht).
  change (trace s) with (trace (with_strtok_save rest s)).
  apply (appends_run_command (fun e => may_emit cmd e = true) cmd
           (remaining_args rest) cmd_table); [|done].
  intros e He <-. unfold cmd_table in He.
  repeat (apply elem_of_cons in He as [-> | He]); simpl.
  - by apply appends_cmd_help_fixed.
  - by apply appends_cmd_c.
  - by apply appends_cmd_q.
  - by apply appends_cmd_si.
  - by apply appends_cmd_info.
  - by apply appends_cmd_x.
  - by apply appends_cmd_p.
  - by apply appends_cmd_w.
  - by apply appends_cmd_d.
  - by apply elem_of_nil in He.
Qed.

(** X2: whatever a [w] line does (usage, rejected expression, success,
    exhausted pool), each text it prints is a fixed one, printed without
    any argument: the number of the watchpoint is never shown. *)
Theorem w_prints_no_number (line rest : string) (s : sdb) :
  Libc.strtok line = Some ("w", rest) →
  ∃ out : list event,
    trace (final (dispatch line s)) = trace s ++ out
    ∧ Forall (fun e => fixed_text e = true) out.
Proof.
  intros Ht. rewrite (dispatch_token _ _ _ _ Ht), run_command_w.
  change (trace s) with (trace (with_strtok_save rest s)).
  apply (appends_bind (fun e => fixed_text e = true)).
  - by apply appends_cmd_w.
  - intros rc. destruct (rc <? 0); apply appends_ret.
Qed.

Lemma rl_gets_run line s :
  ∃ s1, rl_gets line s = Ok line s1
        ∧ trace s1 = trace s ++ (if nonempty line then [AddHistory line] else []).
Proof.
  destruct line as [|c l].
  - exists s. split; [reflexivity | by rewrite app_nil_r].
  - eexists. split; reflexivity.
Qed.

(** X3: the history holds, in order, the non-empty lines that the main loop
    has read, and nothing else: an empty line is never recorded, the lines
    after the one that ended the loop are not, and no handler adds to
    it. *)
Theorem history_is_the_nonempty_lines_read (lines : list string) (s : sdb) :
  ∃ read unread : list string,
    lines = read ++ unread
    ∧ history (trace (final (mainloop lines s)))
      = history (trace s) ++ List.filter nonempty read
    ∧ (∀ rest s', mainloop lines s = Ok rest s' → rest = unread).
Proof.
  revert s. induction lines as [|line lines IH]; intros s.
  - exists [], []. split; [done|]. split; [by rewrite app_nil_r|].
    by intros rest s' [= <- _].
  - destruct (rl_gets_run line s) as (s1 & Hrl & Ht1).
    destruct (appends_dispatch_no_history line s1) as (out & Hd & Hout).
    assert (Hh : history (trace (final (dispatch line s1)))
                 = history (trace s) ++ List.filter nonempty [line]).
    { rewrite Hd, Ht1, !history_app, (history_no_history _ Hout), app_nil_r.
      by destruct line. }
    cbn [mainloop]. rewrite bind_unfold, Hrl, bind_unfold.
    destruct (dispatch line s1) as [[|] s2|s2]; simpl in Hh.
    + destruct (IH s2) as (read & unread & -> & Hhist & Hrest).
      exists (line :: read), unread. split; [done|].
      split; [|exact Hrest].
      rewrite Hhist, Hh. cbn [List.filter].
      destruct (nonempty line); by rewrite <- app_assoc.
    + exists [line], lines. split; [done|]. split; [exact Hh|].
      by intros rest s' [= <- _].
    + exists [line], lines. split; [done|]. split; [exact Hh|].
      intros rest s'. discriminate.
Qed.

Lemma command_of_strtok line cmd rest :
  Libc.strtok line = Some (cmd, rest) → command_of line = Some cmd.
Proof. unfold command_of. by intros ->. Qed.

Lemma command_of_Some line cmd :
  command_of line = Some cmd → ∃ rest, Libc.strtok line = Some (cmd, rest).
Proof.
  unfold command_of. destruct (Libc.strtok line) as [[c r]|]; [|discriminate].
  intros [= <-]. by exists r.
Qed.

Lemma dispatch_Terminate_q line s s' :
  dispatch line s = Ok Terminate s' → command_of line = Some "q".
Proof.
  intros Hd. destruct (Libc.strtok line) as [[cmd rest]|] eqn:Ht.
  - rewrite (dispatch_token _ _ _ _ Ht) in Hd.
    apply run_command_Terminate in Hd as ->; [by eapply command_of_strtok|].
    intros e. apply table_returns_zero.
  - rewrite (dispatch_no_token _ _ Ht) in Hd. discriminate.
Qed.

(** X4: as long as the first lines hold no [q], reading them and then the
    others is the same as reading all in one go: the loop carries nothing
    from line to line but the state. *)
Theorem mainloop_app (l1 l2 : list string) (s : sdb) :
  (∀ l, l ∈ l1 → command_of l ≠ Some "q") →
  mainloop (l1 ++ l2) s
  = match mainloop l1 s with
    | Ok _ s1 => mainloop l2 s1
    | Crash s1 => Crash s1
    end.
Proof.
  revert s. induction l1 as [|line l1 IH]; intros s Hq.
  { cbn [app mainloop]. reflexivity. }
  destruct (rl_gets_run line s) as (s1 & Hrl & _).
  cbn [app mainloop]. rewrite !bind_unfold, Hrl, !bind_unfold.
  destruct (dispatch line s1) as [[|] s2|s2] eqn:Hd.
  - apply IH. intros l Hl. apply Hq. by right.
  - apply dispatch_Terminate_q in Hd. by destruct (Hq line); [left|].
  - reflexivity.
Qed.

(** X5: a session whose lines hold no [q], no [info] and no [w] runs to the
    end of the input: every line is read, and the loop returns when there
    is none left. *)
Theorem session_ends_at_end_of_input (lines : list string) (s : sdb) :
  is_batch_mode s = false →
  (∀ l, l ∈ lines →
        command_of l ≠ Some "q" ∧ command_of l ≠ Some "info"
        ∧ command_of l ≠ Some "w") →
  ∃ s' : sdb, sdb_mainloop lines s = Ok [] s'.
Proof.
  intros Hb Hl. unfold sdb_mainloop. rewrite Hb. clear Hb.
  revert s. induction lines as [|line lines IH]; intros s; [by exists s|].
  destruct (rl_gets_run line s) as (s1 & Hrl & _).
  cbn [mainloop]. rewrite bind_unfold, Hrl, bind_unfold.
  destruct (Hl line) as (Hq & Hi & Hw); [left|].
  destruct (dispatch_safe_outside_info_and_w line s1) as (r & s2 & Hd).
  { intros rest Ht. by apply command_of_strtok in Ht. }
  { intros rest Ht. by apply command_of_strtok in Ht. }
  rewrite Hd. destruct r.
  - apply IH. intros l Hin. apply Hl. by right.
  - by apply dispatch_Terminate_q in Hd.
Qed.

(** X6: once [sdb_set_batch_mode] has been called, [sdb_mainloop] runs the
    engine once, with [-1], and returns: no line is read, nothing is
    printed and nothing enters the history. *)
Theorem batch_mode_runs_engine_once (lines : list string) (s : sdb) :
  ∃ sb : sdb,
    sdb_set_batch_mode s = Ok tt sb
    ∧ sdb_mainloop lines sb
      = Ok lines
           (with_machine (cpu_exec (-1) (machine s))
              (with_trace (trace s ++ [CpuExec (-1)]) (with_batch_mode true s))).
Proof. eexists. split; reflexivity. Qed.

Lemma run_command_unknown cmd args (tbl : list cmd_entry) s :
  cmd ∉ name <$> tbl →
  run_command cmd args tbl s
  = Ok Continue
       (with_trace (trace s ++ [Printf ("Unknown command '%s'" +:+ nl) [PStr cmd]]) s).
Proof.
  induction tbl as [|e tbl IH]; intros Hn; cbn [run_command]; [reflexivity|].
  rewrite fmap_cons, not_elem_of_cons in Hn. destruct Hn as [Hne Hn].
  apply String.eqb_neq in Hne. rewrite Hne. by apply IH.
Qed.

(** X7: a line whose first token is the name of no table entry (a prefix
    of a name, a name in capitals, a name with a tab attached) runs no
    handler: the token is reported as an unknown command, nothing else
    changes and the loop goes on. *)
Theorem unknown_command_is_reported (line cmd rest : string) (s : sdb) :
  Libc.strtok line = Some (cmd, rest) →
  cmd ∉ name <$> cmd_table →
  dispatch line s
  = Ok Continue
       (with_trace (trace s ++ [Printf ("Unknown command '%s'" +:+ nl) [PStr cmd]])
          (with_strtok_save rest s)).
Proof.
  intros Ht Hn. rewrite (dispatch_token _ _ _ _ Ht).
  by rewrite run_command_unknown.
Qed.

(** X8: the names of the table are pairwise distinct, and a line whose
    first token is the name of an entry runs the handler of that very
    entry, once, on what follows the token; the loop ends exactly when
    that handler returns a negative number. *)
Theorem dispatch_runs_named_handler :
  NoDup (name <$> cmd_table)
  ∧ ∀ (e : cmd_entry) (line rest : string) (s : sdb),
      e ∈ cmd_table →
      Libc.strtok line = Some (name e, rest) →
      dispatch line s
      = (rc ← handler e (remaining_args rest);
         if rc <? 0 then mret Terminate else mret Continue)
          (with_strtok_save rest s).
Proof.
  split.
  - apply (bool_decide_unpack _). vm_compute. exact I.
  - intros e line rest s He Ht. rewrite (dispatch_token _ _ _ _ Ht).
    unfold cmd_table in He.
    repeat (apply elem_of_cons in He as [-> | He]); try reflexivity.
    by apply elem_of_nil in He.
Qed.

End Footprint.

(** ** Help, usage lines and leading spaces *)

Section HelpAndUsage.

Context `{Collaborators}.

Implicit Types (s : sdb).

Lemma run_command_help args s :
  run_command "help" args cmd_table s
  = (rc ← cmd_help_fixed args; if rc <? 0 then mret Terminate else mret Continue) s.
Proof. reflexivity. Qed.

Lemma help_all_run (tbl : list (string * string)) s :
  help_all tbl s
  = Ok tt (with_trace (trace s ++ map (fun d => help_line d.1 d.2) tbl) s).
Proof.
  revert s. induction tbl as [|d tbl IH]; intros s.
  - cbn. unfold_monad. rewrite app_nil_r. by destruct s.
  - cbn [help_all map]. rewrite bind_unfold. unfold print_description.
    unfold_monad. rewrite IH. unfold with_trace. cbn.
    by rewrite <- app_assoc.
Qed.

Lemma help_one_run a (tbl : list (string * string)) s :
  help_one a tbl s
  = Ok tt (with_trace
             (trace s
              ++ [match List.find (fun d => String.eqb a d.1) tbl with
                  | Some d => help_line d.1 d.2
                  | None => Printf ("Unknown command '%s'" +:+ nl) [PStr a]
                  end]) s).
Proof.
  induction tbl as [|d tbl IH]; cbn [help_one List.find]; [reflexivity|].
  destruct (String.eqb a d.1); [reflexivity | exact IH].
Qed.

Lemma fixed_help_lines_of_table :
  map (fun e => fixed_help_line (name e) (description e)) cmd_table
  = [ Printf ("help: Display information about all supported commands" +:+ nl) [];
      Printf ("c: Continue the execution of the program" +:+ nl) [];
      Printf ("q: Exit NEMU" +:+ nl) [];
      Printf ("si: step N commands" +:+ nl) [];
      Printf ("info: print the information of registers" +:+ nl) [];
      Printf ("x: scan memory" +:+ nl) [];
      Printf ("p: print the value of expression" +:+ nl) [];
      Printf ("w: set watchpoint" +:+ nl) [];
      Printf ("d: delete watchpoint" +:+ nl) [] ].
Proof. vm_compute. reflexivity. Qed.

Lemma printf_then {A} fmt args (k : M A) s :
  (printf fmt args ≫= λ _, k) s = k (with_trace (trace s ++ [Printf fmt args]) s).
Proof. reflexivity. Qed.

Lemma with_trace_app t1 t2 s :
  with_trace (trace (with_trace (trace s ++ t1) s) ++ t2) (with_trace (trace s ++ t1) s)
  = with_trace (trace s ++ t1 ++ t2) s.
Proof. unfold with_trace. cbn. by rewrite <- app_assoc. Qed.

Lemma cmd_help_fixed_run args s :
  cmd_help_fixed args s
  = Ok 0 (with_trace
            (trace s
             ++ map (fun e => fixed_help_line (name e) (description e)) cmd_table) s).
Proof.
  rewrite fixed_help_lines_of_table. unfold cmd_help_fixed.
  rewrite !printf_then. rewrite !with_trace_app. reflexivity.
Qed.

(** X9: the name [help] in the table denotes the [cmd_help] of lines 56 to
    67, the definition in scope there.  A dispatched [help] prints nine
    fixed lines, whatever follows it on the line, which it does not read:
    one line for each entry of the table, in the order of the table, made
    of the name, a colon and the description of the entry, so that the
    texts written out in that function agree with the table. *)
Theorem help_lists_every_command (line rest : string) (s : sdb) :
  Libc.strtok line = Some ("help", rest) →
  dispatch line s
  = Ok Continue
       (with_trace
          (trace s
           ++ map (fun e => fixed_help_line (name e) (description e)) cmd_table)
          (with_strtok_save rest s))
  ∧ output_lines (map (fun e => fixed_help_line (name e) (description e)) cmd_table)
    = length cmd_table
  ∧ Forall (fun e => fixed_text e = true)
      (map (fun e => fixed_help_line (name e) (description e)) cmd_table).
Proof.
  intros Ht. split; [|split].
  - rewrite (dispatch_token _ _ _ _ Ht), run_command_help, bind_unfold.
    rewrite cmd_help_fixed_run. reflexivity.
  - rewrite fixed_help_lines_of_table. vm_compute. reflexivity.
  - rewrite fixed_help_lines_of_table. repeat constructor.
Qed.
(** X10: the [cmd_help] of lines 178 to 199, the second definition of the
    name, which no entry of the table reaches as the file stands, follows
    the table.  Without an argument it prints one line per entry, in the
    order of the table, with the name and the description of the entry;
    with an argument it prints the line of the first entry whose name is
    exactly the argument, and reports the argument as an unknown command
    when there is none.  It returns 0 and does nothing else. *)
Theorem second_cmd_help_follows_the_table (args : option string) (s : sdb) :
  (Libc.strtok (strtok_save s) = None →
   cmd_help args s
   = Ok 0 (with_trace
             (trace s ++ map (fun e => help_line (name e) (description e)) cmd_table)
             (with_strtok_save EmptyString s)))
  ∧ (∀ a r : string,
       Libc.strtok (strtok_save s) = Some (a, r) →
       cmd_help args s
       = Ok 0 (with_trace
                 (trace s
                  ++ [match List.find (fun e => String.eqb a (name e)) cmd_table with
                      | Some e => help_line (name e) (description e)
                      | None => Printf ("Unknown command '%s'" +:+ nl) [PStr a]
                      end])
                 (with_strtok_save r s))).
Proof.
  split.
  - intros Hr. unfold cmd_help. rewrite !bind_unfold.
    unfold strtok_next, strtok_from. rewrite Hr.
    rewrite bind_unfold, help_all_run. reflexivity.
  - intros a r Hr. unfold cmd_help. rewrite !bind_unfold.
    unfold strtok_next, strtok_from. rewrite Hr.
    rewrite bind_unfold, help_one_run. unfold cmd_descriptions, cmd_table. cbn.
    repeat (destruct (String.eqb a _); [reflexivity|]). reflexivity.
Qed.

(** X11: [p], [w] and [d] without an argument print their usage line and do
    nothing else: the evaluator is not called and the pool is not
    touched. *)
Theorem usage_on_missing_argument (cmd usage line rest : string) (s : sdb) :
  (cmd, usage) ∈ usage_lines →
  Libc.strtok line = Some (cmd, rest) →
  Libc.strtok rest = None →
  dispatch line s
  = Ok Continue
       (with_trace (trace s ++ [Printf (usage +:+ nl) []])
          (with_strtok_save EmptyString s)).
Proof.
  unfold usage_lines. intros Hin Ht Hr.
  rewrite (dispatch_token _ _ _ _ Ht).
  repeat (apply elem_of_cons in Hin as [[= -> ->] | Hin]).
  - rewrite run_command_p, bind_unfold. unfold cmd_p.
    rewrite !bind_unfold. unfold strtok_next, strtok_from.
    cbn [strtok_save with_strtok_save]. rewrite Hr. reflexivity.
  - rewrite run_command_w, bind_unfold. unfold cmd_w.
    rewrite !bind_unfold. unfold strtok_next, strtok_from.
    cbn [strtok_save with_strtok_save]. rewrite Hr. reflexivity.
  - rewrite run_command_d, bind_unfold. unfold cmd_d.
    rewrite !bind_unfold. unfold strtok_next, strtok_from.
    cbn [strtok_save with_strtok_save]. rewrite Hr. reflexivity.
  - by apply elem_of_nil in Hin.
Qed.

Lemma strtok_spaces n line : Libc.strtok (spaces n +:+ line) = Libc.strtok line.
Proof. induction n as [|n IH]; [reflexivity | exact IH]. Qed.

(** X12: spaces before the command do not count: a line and the same line
    with any number of spaces in front are dispatched alike. *)
Theorem leading_spaces_are_ignored (n : nat) (line : string) (s : sdb) :
  dispatch (spaces n +:+ line) s = dispatch line s.
Proof.
  unfold dispatch. rewrite !bind_unfold. unfold strtok_from.
  by rewrite strtok_spaces.
Qed.

(** X16: [d] with an argument prints nothing and goes on, whatever the
    argument: a token that is not a number is not reported, and what is
    released then is the watchpoint that the uninitialised [n] names. *)
Theorem d_with_argument_is_silent (line rest a r : string) (s : sdb) :
  Libc.strtok line = Some ("d", rest) →
  Libc.strtok rest = Some (a, r) →
  ∃ s' : sdb,
    dispatch line s = Ok Continue s'
    ∧ trace s' = trace s
    ∧ machine s' = machine s
    ∧ store s'
      = free_wp_by_num
          (match Libc.scan_d a with
           | Some n => n
           | None => to_int (indeterminate (uninit_reads s))
           end) (store s).
Proof.
  intros Ht Ha.
  rewrite (dispatch_token _ _ _ _ Ht), run_command_d, bind_unfold.
  rewrite (cmd_d_arg _ _ a r) by done.
  eexists. split; [reflexivity|]. done.
Qed.

End HelpAndUsage.

(** ** What a command may change in the state *)

Create HintDb pr discriminated.

Section PreservesFacts.

Context `{Collaborators}.

Implicit Types (s : sdb).

Lemma preserves_ret {B} (p : sdb → B) {A} (a : A) : preserves p (mret a).
Proof. intros s. reflexivity. Qed.

Lemma preserves_bind {B} (p : sdb → B) {A C} (m : M A) (f : A → M C) :
  preserves p m → (∀ a, preserves p (f a)) → preserves p (m ≫= f).
Proof.
  intros Hm Hf s. rewrite bind_unfold. specialize (Hm s).
  destruct (m s) as [a s'|s']; simpl in *; [|done].
  by rewrite Hf.
Qed.

Section Component.

Context {B : Type} (p : sdb → B) (Hbk : bookkeeping_free p).

Lemma preserves_crash {A} : preserves p (@crash _ A).
Proof. intros s. reflexivity. Qed.

Lemma preserves_emit e : preserves p (emit e).
Proof. intros s. apply Hbk. Qed.

Lemma preserves_printf fmt args : preserves p (printf fmt args).
Proof. apply preserves_emit. Qed.

Lemma preserves_strtok_from str : preserves p (strtok_from str).
Proof.
  intros s. unfold strtok_from.
  destruct (Libc.strtok str) as [[tok rest]|]; apply Hbk.
Qed.

Lemma preserves_strtok_next : preserves p strtok_next.
Proof. intros s. apply preserves_strtok_from. Qed.

Lemma preserves_strtok_position : preserves p strtok_position.
Proof. intros s. reflexivity. Qed.

Lemma preserves_strcmp_eq a b : preserves p (strcmp_eq a b).
Proof. intros s. by destruct a. Qed.

Lemma preserves_uninit_int : preserves p uninit_int.
Proof. intros s. apply Hbk. Qed.

Lemma preserves_uninit_vaddr : preserves p uninit_vaddr.
Proof. intros s. apply Hbk. Qed.

Lemma preserves_call_isa_reg_display : preserves p call_isa_reg_display.
Proof. apply preserves_emit. Qed.

Lemma preserves_call_vaddr_read a l : preserves p (call_vaddr_read a l).
Proof. intros s. apply Hbk. Qed.

Lemma preserves_call_isa_reg_str2val e : preserves p (call_isa_reg_str2val e).
Proof. intros s. apply Hbk. Qed.

Lemma preserves_call_cpu_exec n : machine_free p → preserves p (call_cpu_exec n).
Proof.
  intros Hm s. unfold call_cpu_exec. cbn [final].
  rewrite Hm. apply Hbk.
Qed.

Lemma preserves_set_nemu_state v : nemu_state_free p → preserves p (set_nemu_state v).
Proof. intros Hn s. apply Hn. Qed.

Lemma preserves_call_new_wp : store_free p → preserves p call_new_wp.
Proof.
  intros Hs s. unfold call_new_wp.
  destruct (new_wp (store s)) as [[i w]|]; [apply Hs | reflexivity].
Qed.

Lemma preserves_call_free_wp wp : store_free p → preserves p (call_free_wp wp).
Proof. intros Hs s. destruct wp; [apply Hs | reflexivity]. Qed.

Lemma preserves_call_free_wp_by_num n :
  store_free p → preserves p (call_free_wp_by_num n).
Proof. intros Hs s. apply Hs. Qed.

Lemma preserves_wp_strcpy_expr wp e : store_free p → preserves p (wp_strcpy_expr wp e).
Proof. intros Hs s. destruct wp; [apply Hs | reflexivity]. Qed.

Lemma preserves_wp_assign_value wp v :
  store_free p → preserves p (wp_assign_value wp v).
Proof. intros Hs s. destruct wp; [apply Hs | reflexivity]. Qed.

Hint Resolve preserves_crash preserves_emit preserves_printf
  preserves_strtok_from preserves_strtok_next preserves_strtok_position
  preserves_strcmp_eq preserves_uninit_int preserves_uninit_vaddr
  preserves_call_isa_reg_display preserves_call_vaddr_read
  preserves_call_isa_reg_str2val preserves_call_cpu_exec
  preserves_set_nemu_state preserves_call_new_wp preserves_call_free_wp
  preserves_call_free_wp_by_num preserves_wp_strcpy_expr
  preserves_wp_assign_value : pr.

Ltac pr_step :=
  match goal with
  | |- preserves _ (mret _) => apply preserves_ret
  | |- preserves _ (_ ≫= _) => apply preserves_bind; [|intros]
  | |- preserves _ (match ?x with _ => _ end) => destruct x
  | |- preserves _ _ => solve [eauto with pr]
  end.

Lemma preserves_x_bytes j a : preserves p (x_bytes j a).
Proof. revert a. induction j as [|j IH]; intros a; cbn [x_bytes]; repeat pr_step. Qed.

Lemma preserves_x_rows k a : preserves p (x_rows k a).
Proof.
  revert a. induction k as [|k IH]; intros a; cbn [x_rows]; repeat pr_step.
  apply preserves_x_bytes.
Qed.

Lemma preserves_help_all tbl : preserves p (help_all tbl).
Proof.
  induction tbl as [|d tbl IH]; cbn [help_all]; unfold print_description;
    repeat pr_step.
Qed.

Lemma preserves_help_one a tbl : preserves p (help_one a tbl).
Proof.
  induction tbl as [|d tbl IH]; cbn [help_one]; unfold print_description;
    repeat pr_step.
Qed.

Lemma preserves_cmd_help args : preserves p (cmd_help args).
Proof.
  unfold cmd_help. repeat pr_step;
    [apply preserves_help_one | apply preserves_help_all].
Qed.

Lemma preserves_cmd_help_fixed args : preserves p (cmd_help_fixed args).
Proof. unfold cmd_help_fixed. repeat pr_step. Qed.

Lemma preserves_cmd_c args : machine_free p → preserves p (cmd_c args).
Proof. intros Hm. unfold cmd_c. repeat pr_step. Qed.

Lemma preserves_cmd_q args : nemu_state_free p → preserves p (cmd_q args).
Proof. intros Hn. unfold cmd_q. repeat pr_step. Qed.

Lemma preserves_cmd_si args : machine_free p → preserves p (cmd_si args).
Proof. intros Hm. unfold cmd_si. repeat pr_step. Qed.

Lemma preserves_cmd_info args : preserves p (cmd_info args).
Proof. unfold cmd_info. repeat pr_step. Qed.

Lemma preserves_cmd_x args : preserves p (cmd_x args).
Proof. unfold cmd_x. repeat pr_step. apply preserves_x_rows. Qed.

Lemma preserves_cmd_p args : preserves p (cmd_p args).
Proof. unfold cmd_p. repeat pr_step. Qed.

Lemma preserves_cmd_w args : store_free p → preserves p (cmd_w args).
Proof. intros Hs. unfold cmd_w. repeat pr_step. Qed.

Lemma preserves_cmd_d args : store_free p → preserves p (cmd_d args).
Proof. intros Hs. unfold cmd_d. repeat pr_step. Qed.

(** A handler leaves a component alone unless it is one of those that
    write to it. *)
Lemma preserves_table (e : cmd_entry) args :
  e ∈ cmd_table →
  (name e ≠ "c" ∧ name e ≠ "si") ∨ machine_free p →
  name e ≠ "q" ∨ nemu_state_free p →
  (name e ≠ "w" ∧ name e ≠ "d") ∨ store_free p →
  preserves p (handler e args).
Proof.
  unfold cmd_table. intros He Hm Hn Hs.
  repeat (apply elem_of_cons in He as [-> | He]); simpl in *.
  - apply preserves_cmd_help_fixed.
  - apply preserves_cmd_c. by destruct Hm as [[? ?]|].
  - apply preserves_cmd_q. by destruct Hn.
  - apply preserves_cmd_si. by destruct Hm as [[? ?]|].
  - apply preserves_cmd_info.
  - apply preserves_cmd_x.
  - apply preserves_cmd_p.
  - apply preserves_cmd_w. by destruct Hs as [[? ?]|].
  - apply preserves_cmd_d. by destruct Hs as [[? ?]|].
  - by apply elem_of_nil in He.
Qed.

Lemma preserves_run_command cmd args (tbl : list cmd_entry) :
  (∀ e, e ∈ tbl → name e = cmd → preserves p (handler e args)) →
  preserves p (run_command cmd args tbl).
Proof.
  induction tbl as [|e tbl IH]; intros Hh; cbn [run_command].
  - repeat pr_step.
  - destruct (String.eqb cmd (name e)) eqn:Heq.
    + apply String.eqb_eq in Heq.
      apply preserves_bind; [apply Hh; [left | done] | intros rc; repeat pr_step].
    + apply IH. intros e' He'. apply Hh. by right.
Qed.

(** A line leaves a component alone unless its command is one of those
    that write to it. *)
Lemma preserves_dispatch line s :
  (command_of line ≠ Some "c" ∧ command_of line ≠ Some "si") ∨ machine_free p →
  command_of line ≠ Some "q" ∨ nemu_state_free p →
  (command_of line ≠ Some "w" ∧ command_of line ≠ Some "d") ∨ store_free p →
  p (final (dispatch line s)) = p s.
Proof.
  intros Hm Hn Hs.
  destruct (Libc.strtok line) as [[cmd rest]|] eqn:Ht.
  - rewrite (dispatch_token _ _ _ _ Ht).
    rewrite (command_of_strtok _ _ _ Ht) in Hm, Hn, Hs.
    destruct Hbk as (_ & Hsave & _). rewrite <- (Hsave rest s).
    apply preserves_run_command. intros e He <-.
    apply preserves_table; [done | | |].
    + destruct Hm as [[Hc Hsi]|Hm]; [left; split; congruence | by right].
    + destruct Hn as [Hq|Hn]; [left; congruence | by right].
    + destruct Hs as [[Hw Hd]|Hs]; [left; split; congruence | by right].
  - rewrite (dispatch_no_token _ _ Ht). apply Hbk.
Qed.

End Component.

Lemma machine_bookkeeping_free : bookkeeping_free machine.
Proof. by repeat split. Qed.

Lemma nemu_state_bookkeeping_free : bookkeeping_free nemu_state.
Proof. by repeat split. Qed.

Lemma store_bookkeeping_free : bookkeeping_free store.
Proof. by repeat split. Qed.

(** With reads and evaluations that leave the machine alone, as the
    collaborators are modelled, the machine is what it was after any line
    whose command is neither [c] nor [si]. *)
Lemma machine_unchanged_outside_c_and_si (line : string) (s : sdb) :
  command_of line ≠ Some "c" →
  command_of line ≠ Some "si" →
  machine (final (dispatch line s)) = machine s.
Proof.
  intros Hc Hsi.
  apply (preserves_dispatch machine machine_bookkeeping_free);
    [by left | by right | by right].
Qed.

(** X13: no line but a [q] line makes the monitor write to [nemu_state]:
    the run state, as far as sdb.c assigns it, is what it was after any
    other line. *)
Theorem only_q_changes_the_run_state (line : string) (s : sdb) :
  command_of line ≠ Some "q" →
  nemu_state (final (dispatch line s)) = nemu_state s.
Proof.
  intros Hq.
  apply (preserves_dispatch nemu_state nemu_state_bookkeeping_free);
    [by right | by left | by right].
Qed.

(** X14: no line but a [w] or a [d] line makes the monitor call into the
    watchpoint pool or write through a watchpoint pointer: the pool, as far
    as sdb.c acts on it, is what it was after any other line. *)
Theorem only_w_and_d_touch_the_pool (line : string) (s : sdb) :
  command_of line ≠ Some "w" →
  command_of line ≠ Some "d" →
  store (final (dispatch line s)) = store s.
Proof.
  intros Hw Hd.
  apply (preserves_dispatch store store_bookkeeping_free);
    [by right | by right | by left].
Qed.

End PreservesFacts.

(** ** When a line crashes the monitor *)

Section Crashes.

Context `{Collaborators}.

(** X15: among the lines whose command is not [w], the ones that crash the
    monitor are exactly those made of [info] without a sub-argument (the
    null pointer goes to [strcmp]); every other one is handled to
    completion, in every state.  The command [w] is left aside here: with
    an argument it does crash when [new_wp] returns the null pointer, which
    it writes through unchecked, and it copies its token into the
    watchpoint without regard to the size of the field. *)
Theorem only_bare_info_crashes_outside_w (line : string) (s : sdb) :
  (command_of line ≠ Some "w" →
   (∃ s' : sdb, dispatch line s = Crash s')
   ↔ (∃ rest, Libc.strtok line = Some ("info", rest) ∧ Libc.strtok rest = None))
  ∧ (∀ rest a r : string,
       Libc.strtok line = Some ("w", rest) →
       Libc.strtok rest = Some (a, r) →
       new_wp (store s) = None →
       dispatch line s = Crash (with_strtok_save r s)).
Proof.
  split.
  - intros Hnw. split.
    + intros [s' Hc].
      destruct (Libc.strtok line) as [[cmd rest]|] eqn:Ht;
        [|rewrite (dispatch_no_token _ _ Ht) in Hc; discriminate].
      assert (Hw : cmd ≠ "w").
      { intros ->. apply Hnw. unfold command_of. by rewrite Ht. }
      destruct (decide (cmd = "info")) as [->|Hi].
      * exists rest. split; [done|].
        destruct (Libc.strtok rest) as [[a r]|] eqn:Ha; [|done].
        rewrite (dispatch_token _ _ _ _ Ht), run_command_info, bind_unfold in Hc.
        rewrite (cmd_info_arg _ _ a r) in Hc by done. discriminate.
      * destruct (dispatch_safe_outside_info_and_w line s) as (r & s2 & Hd);
          [intros rest' Hr; congruence | intros rest' Hr; congruence | congruence].
    + intros (rest & Ht & Hr).
      eexists. rewrite (dispatch_token _ _ _ _ Ht), run_command_info, bind_unfold.
      by rewrite cmd_info_null.
  - intros rest a r Ht Ha Hn.
    rewrite (dispatch_token _ _ _ _ Ht), run_command_w, bind_unfold.
    by rewrite (cmd_w_exhausted _ _ a r).
Qed.

End Crashes.

(** ** The properties of the whole command set on the concrete machine *)

Lemma command_footprint_witness :
  ∃ out : list event,
    trace (final (@dispatch demo "x 1 0x10" demo_sdb)) = out
    ∧ Forall (fun e => may_emit "x" e = true) out.
Proof.
  destruct (@command_footprint demo "x 1 0x10" "x" "1 0x10" demo_sdb)
    as (out & Ht & Hall); [reflexivity|].
  exists out. split; [exact Ht | exact Hall].
Defined.

Lemma w_prints_no_number_witness :
  ∃ out : list event,
    trace (final (@dispatch demo "w $pc" demo_sdb)) = out
    ∧ Forall (fun e => fixed_text e = true) out.
Proof.
  destruct (@w_prints_no_number demo "w $pc" "$pc" demo_sdb)
    as (out & Ht & Hall); [reflexivity|].
  exists out. split; [exact Ht | exact Hall].
Defined.

Lemma mainloop_app_witness :
  @mainloop demo (["si"; "p $pc"] ++ ["q"; "c"]) demo_sdb
  = match @mainloop demo ["si"; "p $pc"] demo_sdb with
    | Ok _ s1 => @mainloop demo ["q"; "c"] s1
    | Crash s1 => Crash s1
    end.
Proof.
  apply (@mainloop_app demo ["si"; "p $pc"] ["q"; "c"] demo_sdb).
  intros l Hl.
  repeat (apply elem_of_cons in Hl as [-> | Hl]);
    [vm_compute; discriminate.. | by apply elem_of_nil in Hl].
Defined.

Lemma session_ends_at_end_of_input_witness :
  ∃ s' : @sdb demo,
    @sdb_mainloop demo ["si 2"; ""; "p $pc"; "x 1 0"; "nonsense"] demo_sdb = Ok [] s'.
Proof.
  apply (@session_ends_at_end_of_input demo); [reflexivity|].
  intros l Hl.
  repeat (apply elem_of_cons in Hl as [-> | Hl]);
    [repeat split; vm_compute; discriminate.. | by apply elem_of_nil in Hl].
Defined.

Lemma unknown_command_is_reported_witness :
  @dispatch demo "hel p" demo_sdb
  = Ok Continue
       (with_trace [Printf ("Unknown command '%s'" +:+ nl) [PStr "hel"]]
          (with_strtok_save "p" demo_sdb)).
Proof.
  apply (@unknown_command_is_reported demo "hel p" "hel" "p" demo_sdb);
    [reflexivity|].
  apply (bool_decide_unpack _). vm_compute. exact I.
Defined.

Lemma dispatch_runs_named_handler_witness :
  @dispatch demo "q now" demo_sdb
  = (rc ← @cmd_q demo (Some "now");
     if rc <? 0 then mret Terminate else mret Continue)
      (with_strtok_save "now" demo_sdb).
Proof.
  destruct (@dispatch_runs_named_handler demo) as [_ Hrun].
  apply (Hrun (mkCmd "q" "Exit NEMU" cmd_q) "q now" "now" demo_sdb);
    [right; right; left | reflexivity].
Defined.

Lemma help_lists_every_command_witness :
  ∃ s' : @sdb demo,
    @dispatch demo "help si" demo_sdb = Ok Continue s'
    ∧ output_lines (trace s') = 9%nat
    ∧ nth_error (trace s') 3 = Some (Printf ("si: step N commands" +:+ nl) [])
    ∧ strtok_save s' = "si".
Proof.
  destruct (@help_lists_every_command demo "help si" "si" demo_sdb)
    as (Hd & Hl & _); [reflexivity|].
  eexists. split; [exact Hd|].
  split; [exact Hl|]. split; reflexivity.
Defined.

Lemma second_cmd_help_follows_the_table_witness :
  @cmd_help demo None (with_strtok_save "si" demo_sdb)
  = Ok 0 (with_trace [help_line "si" "step N commands"]
            (with_strtok_save EmptyString demo_sdb))
  ∧ @cmd_help demo None (with_strtok_save "s" demo_sdb)
    = Ok 0 (with_trace [Printf ("Unknown command '%s'" +:+ nl) [PStr "s"]]
              (with_strtok_save EmptyString demo_sdb))
  ∧ output_lines (trace (final (@cmd_help demo None demo_sdb))) = 9%nat.
Proof.
  split; [|split].
  - destruct (@second_cmd_help_follows_the_table demo None
                (with_strtok_save "si" demo_sdb)) as [_ Harg].
    apply (Harg "si" EmptyString). reflexivity.
  - destruct (@second_cmd_help_follows_the_table demo None
                (with_strtok_save "s" demo_sdb)) as [_ Harg].
    apply (Harg "s" EmptyString). reflexivity.
  - destruct (@second_cmd_help_follows_the_table demo None demo_sdb) as [Hall _].
    rewrite Hall; reflexivity.
Defined.

Lemma usage_on_missing_argument_witness :
  @dispatch demo "w" demo_sdb
  = Ok Continue
       (with_trace [Printf ("w EXPR: set watchpoint" +:+ nl) []]
          (with_strtok_save EmptyString demo_sdb)).
Proof.
  apply (@usage_on_missing_argument demo "w" "w EXPR: set watchpoint" "w"
           EmptyString demo_sdb); [right; left | reflexivity | reflexivity].
Defined.

Lemma only_q_changes_the_run_state_witness :
  nemu_state (final (@dispatch demo "w $pc" demo_sdb)) = NEMU_RUNNING.
Proof.
  apply (@only_q_changes_the_run_state demo "w $pc" demo_sdb).
  vm_compute. discriminate.
Defined.

Lemma only_w_and_d_touch_the_pool_witness :
  store (final (@dispatch demo "x 1 0" demo_sdb)) = init_wp_pool 4.
Proof.
  apply (@only_w_and_d_touch_the_pool demo "x 1 0" demo_sdb);
    vm_compute; discriminate.
Defined.

Lemma d_with_argument_is_silent_witness :
  ∃ s' : @sdb demo,
    @dispatch demo "d zz" demo_sdb = Ok Continue s'
    ∧ trace s' = []
    ∧ store s' = free_wp_by_num 7 (init_wp_pool 4).
Proof.
  destruct (@d_with_argument_is_silent demo "d zz" "zz" "zz" EmptyString demo_sdb)
    as (s' & Hd & Ht & _ & Hs); [reflexivity | reflexivity |].
  exists s'. split; [exact Hd|]. split; [exact Ht | exact Hs].
Defined.

Lemma only_bare_info_crashes_outside_w_witness :
  (∃ s' : @sdb demo, @dispatch demo "info  " demo_sdb = Crash s')
  ∧ ¬ (∃ s' : @sdb demo, @dispatch demo "x 1" demo_sdb = Crash s').
Proof.
  split.
  - destruct (@only_bare_info_crashes_outside_w demo "info  " demo_sdb) as [Hiff _].
    apply Hiff; [discriminate|]. exists " ". split; reflexivity.
  - destruct (@only_bare_info_crashes_outside_w demo "x 1" demo_sdb) as [Hiff _].
    intros Hc. apply Hiff in Hc as (rest & Ht & _); discriminate.
Defined.
